(** * metabase.http-client: the test/REPL HTTP client

    A shallow embedding of [src/metabase/http_client.clj] ([client],
    [-client], [authenticate], [build-url]) together with the properties
    its specification states about it.

    Clojure is dynamically typed, so the arguments of the functions are
    values of one type [value], and the [:pre] conditions of the source are
    checks on those values that throw [AssertionError].  The libraries the
    client calls (clj-http, clojure.data.json) and the remote server are not
    part of the repository: they are fields of an environment record
    [Env]. *)

From Stdlib Require Import List String Ascii ZArith Lia Bool.
From Stdlib Require Import DecimalString.
Import ListNotations.
Open Scope string_scope.
Set Warnings "-register-all".

(** ** Values *)

(** Map keys are the atoms of the language; this covers JSON objects,
    credentials maps and URL-parameter maps.  A keyword is identified by
    its text after the colon ([:id] is [KKw "id"], [:a/b] is [KKw "a/b"]). *)
Inductive key : Type :=
| KNil
| KBool (b : bool)
| KInt (n : Z)
| KStr (s : string)
| KKw (text : string).

(** A map is the list of its entries in the map's iteration order.  An
    integer is a [VInt] when its class is one [%d] of [format] prints
    (Long, Integer, Short, Byte, java.math.BigInteger), and a [VBigInt]
    when it is a clojure.lang.BigInt ([200N], or a literal too large for a
    Long); [integer?] holds of both and [=] compares them by their number. *)
Inductive value : Type :=
| VNil
| VBool (b : bool)
| VInt (n : Z)
| VBigInt (n : Z)
| VStr (s : string)
| VKw (text : string)
| VVec (items : list value)
| VMap (entries : list (key * value)).

Definition key_value (k : key) : value :=
  match k with
  | KNil => VNil
  | KBool b => VBool b
  | KInt n => VInt n
  | KStr s => VStr s
  | KKw t => VKw t
  end.

Definition key_eqb (a b : key) : bool :=
  match a, b with
  | KNil, KNil => true
  | KBool x, KBool y => Bool.eqb x y
  | KInt x, KInt y => Z.eqb x y
  | KStr x, KStr y => String.eqb x y
  | KKw x, KKw y => String.eqb x y
  | _, _ => false
  end.

(** [map?], [string?], [integer?], [nil?] *)
Definition is_map (v : value) : bool :=
  match v with VMap _ => true | _ => false end.
Definition is_string (v : value) : bool :=
  match v with VStr _ => true | _ => false end.
Definition is_integer (v : value) : bool :=
  match v with VInt _ | VBigInt _ => true | _ => false end.
Definition is_nil (v : value) : bool :=
  match v with VNil => true | _ => false end.

(** Logical truth: everything but [nil] and [false]. *)
Definition truthy (v : value) : bool :=
  match v with VNil | VBool false => false | _ => true end.

(** [(get m k)], which is also [(k m)] for a keyword [k]: the entry of a
    map, [nil] when the key is absent or [m] is not a map. *)
Fixpoint lookup (k : key) (m : list (key * value)) : option value :=
  match m with
  | [] => None
  | (k', v) :: m' => if key_eqb k k' then Some v else lookup k m'
  end.

Definition get (v : value) (k : key) : value :=
  match v with
  | VMap m => match lookup k m with Some x => x | None => VNil end
  | _ => VNil
  end.

(** [(assoc m k v)]: an existing key keeps its place and takes the new
    value, a new key goes last. *)
Fixpoint assoc (m : list (key * value)) (k : key) (v : value)
  : list (key * value) :=
  match m with
  | [] => [(k, v)]
  | (k', v') :: m' =>
      if key_eqb k k' then (k', v) :: m' else (k', v') :: assoc m' k v
  end.

(** [(into m entries)] on maps. *)
Definition into (m : list (key * value)) (es : list (key * value))
  : list (key * value) :=
  fold_left (fun acc e => assoc acc (fst e) (snd e)) es m.

(** ** Strings *)

Definition upper_ascii (c : ascii) : ascii :=
  let n := nat_of_ascii c in
  if andb (Nat.leb 97 n) (Nat.leb n 122) then ascii_of_nat (n - 32) else c.

(** [String.toUpperCase], on the ASCII letters. *)
Fixpoint toUpperCase (s : string) : string :=
  match s with
  | EmptyString => EmptyString
  | String c s' => String (upper_ascii c) (toUpperCase s')
  end.

(** Decimal text of an integer: what [str] and the [%d] of [format] print. *)
Definition decimal (n : Z) : string := NilZero.string_of_int (Z.to_int n).

(** [(name kw)]: the text after the first slash, the whole text when
    there is none (or when the text is the slash alone). *)
Definition kw_name (text : string) : string :=
  if String.eqb text "/" then text
  else match index 0 "/" text with
       | Some i => substring (S i) (String.length text - S i) text
       | None => text
       end.

(** [(apply str xs)] on strings. *)
Definition apply_str (xs : list string) : string :=
  fold_right String.append "" xs.

(** [(interpose sep xs)] *)
Fixpoint interpose {A : Type} (sep : A) (xs : list A) : list A :=
  match xs with
  | [] => []
  | [x] => [x]
  | x :: xs' => x :: sep :: interpose sep xs'
  end.

(** ** Requests, responses and what can be thrown *)

(** The four request functions of clj-http the client chooses from. *)
Inductive request_fn : Type :=
| client_get
| client_post
| client_put
| client_delete.

(** The request map handed to the request function. *)
Record request_map : Type := {
  content_type : value;
  accept : value;
  headers : list (string * value);
  body : string
}.

Record request : Type := {
  req_fn : request_fn;
  req_url : string;
  req_map : request_map
}.

(** A response map, as far as the client reads it: [:status] and [:body],
    either of which may be missing ([nil]). *)
Record response : Type := {
  status : option Z;
  resp_body : option string
}.

Inductive throwable : Type :=
| AssertionError (failed : string)
    (** java.lang.AssertionError, of a [:pre] condition: an Error, which
        [(catch Exception ...)] does not catch *)
| ExceptionInfo (object : option response)
    (** clojure.lang.ExceptionInfo, with the [:object] entry of its data *)
| Exception (message : string).
    (** java.lang.Exception and its other subclasses *)

Definition is_Exception (t : throwable) : bool :=
  match t with AssertionError _ => false | _ => true end.

Definition is_ExceptionInfo (t : throwable) : bool :=
  match t with ExceptionInfo _ => true | _ => false end.

(** What a request function does with a request: it returns a response, or
    throws an ExceptionInfo (clj-http does this for an exceptional status,
    the response being the [:object] of the data), or throws another
    exception (connection refused, unknown host, ...). *)
Inductive outcome : Type :=
| Responds (r : response)
| ThrowsInfo (object : option response)
| ThrowsOther (message : string).

(** ** The environment: configuration, libraries, server *)

Record Env : Type := {
  (** the dynamic var [*url-prefix*] *)
  url_prefix : string;
  (** clojure.data.json/write-str; [None] when it throws *)
  write_str : value -> option string;
  (** clojure.data.json/read-str; [None] when it throws *)
  read_str : string -> option value;
  (** the map built from keyword arguments; [None] when it throws *)
  hash_map : list value -> option value;
  (** the text [str] gives for a vector or a map *)
  coll_str : value -> string;
  (** the request functions and the server behind them: the outcome of a
      request, given the requests sent before it *)
  http : list request -> request -> outcome
}.

(** ** Effects: requests sent, lines printed, exceptions *)

Record world : Type := {
  sent : list request;
  out : list string
}.

Inductive result (A : Type) : Type :=
| Ok (a : A)
| Throw (t : throwable)
| OutOfFuel.
Arguments Ok {A} a.
Arguments Throw {A} t.
Arguments OutOfFuel {A}.

Definition M (A : Type) : Type := world -> result A * world.

Definition ret {A : Type} (a : A) : M A := fun w => (Ok a, w).

Definition bind {A B : Type} (m : M A) (k : A -> M B) : M B :=
  fun w =>
    match m w with
    | (Ok a, w') => k a w'
    | (Throw t, w') => (Throw t, w')
    | (OutOfFuel, w') => (OutOfFuel, w')
    end.

Definition throw {A : Type} (t : throwable) : M A := fun w => (Throw t, w).

Definition out_of_fuel {A : Type} : M A := fun w => (OutOfFuel, w).

Definition lift {A : Type} (r : result A) : M A := fun w => (r, w).

(** [(try m (catch C e (handler e)))], [catches] telling the class [C]. *)
Definition try_catch {A : Type} (m : M A) (catches : throwable -> bool)
  (handler : throwable -> M A) : M A :=
  fun w =>
    match m w with
    | (Throw t, w') => if catches t then handler t w' else (Throw t, w')
    | r => r
    end.

Declare Scope client_scope.
Delimit Scope client_scope with client.
Notation "x <- m ;; k" := (bind m (fun x => k))
  (at level 61, m at next level, right associativity) : client_scope.
Notation "m ;; k" := (bind m (fun _ => k))
  (at level 61, right associativity) : client_scope.
Open Scope client_scope.

(** [(println a b ...)]: one line, the arguments separated by a space. *)
Definition println (args : list string) : M unit :=
  fun w => (Ok tt, {| sent := sent w; out := out w ++ [String.concat " " args] |}).

(** The [:pre] conditions of a function, checked in order on entry. *)
Fixpoint pre (conds : list (bool * string)) : result unit :=
  match conds with
  | [] => Ok tt
  | (c, text) :: conds' =>
      if c then pre conds' else Throw (AssertionError ("Assert failed: " ++ text))
  end.

(** [first], [next] and the [[x & more]] destructuring of an argument list *)
Definition first (args : list value) : value :=
  match args with [] => VNil | x :: _ => x end.
Definition next (args : list value) : list value := tl args.

(** Modelled from the spec: [metabase.util/optional], which is not under
    src/.  The optional leading arguments of [client] are "type-sniffed
    from position": when the first argument satisfies the predicate it is
    taken and the rest follow, otherwise the argument is absent ([nil]) and
    all the arguments remain. *)
Definition optional (pred : value -> bool) (args : list value)
  : value * list value :=
  if pred (first args) then (first args, next args) else (VNil, args).

(** ** clojure.walk/keywordize-keys *)

(** The entry function of keywordize-keys: a string key becomes the
    keyword of that text, any other key stays. *)
Definition keywordize_entry (e : key * value) : key * value :=
  match fst e with
  | KStr s => (KKw s, snd e)
  | _ => e
  end.

(** A post-order walk: the entries of a map are walked and put into an
    empty map, then its string keys are replaced and the entries put into
    [{}] once more; the items of a vector are walked; atoms stay. *)
Fixpoint keywordize_keys (v : value) : value :=
  match v with
  | VVec items => VVec (map keywordize_keys items)
  | VMap entries =>
      let walked :=
        into [] (map (fun e => match e with
                               | (k, x) => (k, keywordize_keys x)
                               end) entries) in
      VMap (into [] (map keywordize_entry walked))
  | _ => v
  end.

(** ** The client *)

Section Client.

Variable env : Env.

(** [(str v)] of one value. *)
Definition str (v : value) : string :=
  match v with
  | VNil => ""
  | VBool true => "true"
  | VBool false => "false"
  | VInt n => decimal n
  | VBigInt n => decimal n
  | VStr s => s
  | VKw t => ":" ++ t
  | _ => coll_str env v
  end.

(** [(str a b ...)], which is [(apply str [a b ...])]. *)
Definition str_all (vs : list value) : string := apply_str (map str vs).

(** [(if (keyword? x) (name x) x)] *)
Definition name_if_keyword (v : value) : value :=
  match v with
  | VKw t => VStr (kw_name t)
  | _ => v
  end.

(** [(empty? coll)] *)
Definition empty (v : value) : bool :=
  match v with
  | VNil | VStr "" | VVec [] | VMap [] => true
  | _ => false
  end.

(** The entries a map gives when it is traversed as a sequence. *)
Definition entries_of (v : value) : list (key * value) :=
  match v with VMap m => m | _ => [] end.

(** [build-url] *)
Definition build_url (url url_param_kwargs : value) : result string :=
  match pre [ (is_string url, "(string? url)");
              (is_nil url_param_kwargs || is_map url_param_kwargs,
               "(or (nil? url-param-kwargs) (map? url-param-kwargs))") ] with
  | Ok _ =>
      Ok (str_all
            [ VStr (url_prefix env); url;
              if empty url_param_kwargs then VNil
              else
                let pairs :=
                  map (fun e => match e with
                                | (k, v) => [ name_if_keyword (key_value k);
                                              name_if_keyword v ]
                                end) (entries_of url_param_kwargs) in
                let with_eq := map (interpose (VStr "=")) pairs in
                let joined := map (fun p => VStr (str_all p)) with_eq in
                let with_amp := interpose (VStr "&") joined in
                VStr (str_all [VStr "?"; VStr (str_all with_amp)]) ])
  | Throw t => Throw t
  | OutOfFuel => OutOfFuel
  end.

(** The request function sends the request: it is recorded, and the
    environment decides what comes back. *)
Definition call (f : request_fn) (url : string) (rm : request_map)
  : M response :=
  fun w =>
    let rq := {| req_fn := f; req_url := url; req_map := rm |} in
    let w' := {| sent := sent w ++ [rq]; out := out w |} in
    match http env (sent w) rq with
    | Responds r => (Ok r, w')
    | ThrowsInfo o => (Throw (ExceptionInfo o), w')
    | ThrowsOther msg => (Throw (Exception msg), w')
    end.

(** [(case method :get client/get ...)]: no default clause. *)
Definition case_method (method : value) : result request_fn :=
  match method with
  | VKw "get" => Ok client_get
  | VKw "post" => Ok client_post
  | VKw "put" => Ok client_put
  | VKw "delete" => Ok client_delete
  | _ => Throw (Exception "No matching clause")
  end.

(** [(contains? #{:get :post :put :delete} method)] *)
Definition is_method (method : value) : bool :=
  match method with
  | VKw t => existsb (String.eqb t) ["get"; "post"; "put"; "delete"]
  | _ => false
  end.

(** [(name method)]: of a keyword or a string. *)
Definition name (v : value) : result string :=
  match v with
  | VKw t => Ok (kw_name t)
  | VStr s => Ok s
  | _ => Throw (Exception "cannot be cast to clojure.lang.Named")
  end.

(** The [{:keys [status body]}] destructuring of the response; of the
    [:object] of an ExceptionInfo it is [nil] twice when there is none. *)
Definition status_of (r : option response) : option Z :=
  match r with Some r => status r | None => None end.
Definition body_of (r : option response) : option string :=
  match r with Some r => resp_body r | None => None end.

(** [(= status expected-status)] *)
Definition status_eq (st : option Z) (expected : value) : bool :=
  match st, expected with
  | Some s, VInt e => Z.eqb s e
  | Some s, VBigInt e => Z.eqb s e
  | None, VNil => true
  | _, _ => false
  end.

(** The class of a value that [%d] does not print, as the
    IllegalFormatConversionException names it. *)
Definition class_name (v : value) : string :=
  match v with
  | VBool _ => "java.lang.Boolean"
  | VBigInt _ => "clojure.lang.BigInt"
  | VStr _ => "java.lang.String"
  | VKw _ => "clojure.lang.Keyword"
  | VVec _ => "clojure.lang.PersistentVector"
  | VMap _ => "clojure.lang.PersistentArrayMap"
  | _ => ""
  end.

(** What [%d] of [format] does with its argument: [nil] is printed as
    null and an integer of a Java class in decimal; for any other class,
    clojure.lang.BigInt among them, [format] throws an
    IllegalFormatConversionException. *)
Definition format_d (v : value) : result string :=
  match v with
  | VNil => Ok "null"
  | VInt n => Ok (decimal n)
  | _ => Throw (Exception ("d != " ++ class_name v))
  end.

Definition status_value (st : option Z) : value :=
  match st with Some s => VInt s | None => VNil end.

(** [(format "%s %s expected a status code of %d, got %d" ...)]: the
    arguments are formatted from left to right. *)
Definition mismatch_message (method_name url : string) (expected : value)
  (st : option Z) : result string :=
  match format_d expected with
  | Ok e =>
      match format_d (status_value st) with
      | Ok a =>
          Ok (method_name ++ " " ++ url ++ " expected a status code of "
              ++ e ++ ", got " ++ a)
      | Throw t => Throw t
      | OutOfFuel => OutOfFuel
      end
  | Throw t => Throw t
  | OutOfFuel => OutOfFuel
  end.

(** What [println] prints for a value that is a string or [nil]. *)
Definition print_opt (o : option string) : string :=
  match o with Some s => s | None => "nil" end.

(** The last expression of [-client]: the body read as JSON with its keys
    keywordized, or the body as it is when that throws ([read-str] of
    [nil] throws too). *)
Definition parse_body (b : option string) : value :=
  match b with
  | Some s =>
      match read_str env s with
      | Some v => keywordize_keys v
      | None => VStr s
      end
  | None => VNil
  end.

(** The [:pre] conditions of [-client]. *)
Definition _client_pre
  (credentials method expected_status url http_body url_param_kwargs : value)
  : result unit :=
  pre [ (is_nil credentials || is_map credentials,
         "(or (nil? credentials) (map? credentials))");
        (is_method method,
         "(contains? #{:get :post :put :delete} method)");
        (is_nil expected_status || is_integer expected_status,
         "(or (nil? expected-status) (integer? expected-status))");
        (is_string url, "(string? url)");
        (is_nil http_body || is_map http_body,
         "(or (nil? http-body) (map? http-body))");
        (is_nil url_param_kwargs || is_map url_param_kwargs,
         "(or (nil? url-param-kwargs) (map? url-param-kwargs))") ].

(** [(when credentials (authenticate credentials))] *)
Definition when_credentials (authenticate : value -> M value)
  (credentials : value) : M value :=
  if truthy credentials then authenticate credentials else ret VNil.

(** The body of the [let] of [-client]: the status line is printed, the
    status checked when one is expected, and the body parsed. *)
Definition check_and_parse (method_name url : string)
  (expected_status : value) (resp : option response) : M value :=
  let status := status_of resp in
  let body := body_of resp in
  println [method_name; url; print_opt (option_map decimal status)] ;;
  (if truthy expected_status then
     if status_eq status expected_status then ret tt
     else println [print_opt body] ;;
          message <- lift (mismatch_message method_name url expected_status
                             status) ;;
          throw (Exception message)
   else ret tt) ;;
  ret (parse_body body).

(** The body of [-client], the function it calls to authenticate being a
    parameter ([-client], [authenticate] and [client] call one another). *)
Definition _client_body (authenticate : value -> M value)
  (credentials method expected_status url http_body url_param_kwargs : value)
  : M value :=
  lift (_client_pre credentials method expected_status url http_body
          url_param_kwargs) ;;
  token <- when_credentials authenticate credentials ;;
  json <- lift (match write_str env http_body with
                | Some s => Ok s
                | None => Throw (Exception "write-str")
                end) ;;
  let request_map := {| content_type := VKw "json";
                        accept := VKw "json";
                        headers := [("X-METABASE-SESSION", token)];
                        body := json |} in
  request_fn <- lift (case_method method) ;;
  url <- lift (build_url url url_param_kwargs) ;;
  method_name <- lift (match name method with
                       | Ok n => Ok (toUpperCase n)
                       | Throw t => Throw t
                       | OutOfFuel => OutOfFuel
                       end) ;;
  resp <- try_catch
            (r <- call request_fn url request_map ;; ret (Some r))
            is_ExceptionInfo
            (fun e => println [method_name; url] ;;
                      ret (match e with
                           | ExceptionInfo object => object
                           | _ => None
                           end)) ;;
  check_and_parse method_name url expected_status resp.

(** The body of [client]: the optional leading arguments are taken by
    their type, the arguments after the body are keyword arguments. *)
Definition client_body
  (_client : value -> value -> value -> value -> value -> value -> M value)
  (args : list value) : M value :=
  let (credentials, rest) := optional is_map args in
  let method := first rest in
  let args := next rest in
  let (expected_status, rest) := optional is_integer args in
  let url := first rest in
  let args := next rest in
  let (body, rest) := optional is_map args in
  url_param_kwargs <- lift (match rest with
                            | [] => Ok VNil
                            | _ => match hash_map env rest with
                                   | Some m => Ok m
                                   | None => Throw (Exception "hash-map")
                                   end
                            end) ;;
  _client credentials method expected_status url body url_param_kwargs.

(** The body of [authenticate]. *)
Definition authenticate_body (client : list value -> M value)
  (credentials : value) : M value :=
  let email := get credentials (KKw "email") in
  let password := get credentials (KKw "password") in
  lift (pre [ (is_string email, "(string? email)");
              (is_string password, "(string? password)") ]) ;;
  try_catch
    (r <- client [VKw "post"; VInt 200; VStr "session"; credentials] ;;
     ret (get r (KKw "id")))
    is_Exception
    (fun e => println [ "Failed to authenticate with email:"; str email;
                        "and password:"; str password;
                        ". Does user exist?" ] ;;
              ret VNil).

(** The three functions, tied together.  The recursion of the source is
    not structural, so it is unfolded [fuel] times; [authenticate_fuel]
    below shows that one unfolding is all that is ever used. *)
Fixpoint authenticate (fuel : nat) (credentials : value) : M value :=
  match fuel with
  | O => out_of_fuel
  | S fuel' =>
      authenticate_body
        (client_body (_client_body (authenticate fuel'))) credentials
  end.

Definition _client (fuel : nat) := _client_body (authenticate fuel).

Definition client (fuel : nat) := client_body (_client fuel).

End Client.

(** A world in which nothing has happened yet. *)
Definition start : world := {| sent := []; out := [] |}.

(** ** The request of a call *)

(** The world after a request has been sent in it. *)
Definition sending (w : world) (rq : request) : world :=
  {| sent := sent w ++ [rq]; out := out w |}.

(** The upper-cased name [-client] prints and puts in its error message. *)
Definition method_name (method : value) : string :=
  match name method with
  | Ok n => toUpperCase n
  | _ => ""
  end.

(** The bindings of the [let] of [-client] up to the request: when the
    preconditions hold, authentication (if any) returns and the body is
    serialized, the request that is sent and the world it is sent in. *)
Definition prepare (env : Env) (authenticate : value -> M value)
  (credentials method expected_status url http_body url_param_kwargs : value)
  (w : world) : option (world * request) :=
  match _client_pre credentials method expected_status url http_body
          url_param_kwargs with
  | Ok _ =>
      match when_credentials authenticate credentials w with
      | (Ok token, w1) =>
          match write_str env http_body, case_method method,
                build_url env url url_param_kwargs with
          | Some json, Ok f, Ok full_url =>
              Some (w1,
                    {| req_fn := f;
                       req_url := full_url;
                       req_map :=
                         {| content_type := VKw "json";
                            accept := VKw "json";
                            headers := [("X-METABASE-SESSION", token)];
                            body := json |} |})
          | _, _, _ => None
          end
      | _ => None
      end
  | _ => None
  end.

(** [(client :post 200 "session" credentials)] as [-client] receives it.
    Without credentials [-client] does not authenticate, so the function
    given to it for that is never called. *)
Definition login (env : Env) (credentials : value) : M value :=
  _client_body env (fun _ => out_of_fuel)
    VNil (VKw "post") (VInt 200) (VStr "session") credentials VNil.

(** The request of a login whose body is [json]. *)
Definition login_request (env : Env) (json : string) : request :=
  {| req_fn := client_post;
     req_url := url_prefix env ++ "session";
     req_map := {| content_type := VKw "json";
                   accept := VKw "json";
                   headers := [("X-METABASE-SESSION", VNil)];
                   body := json |} |}.

(** ** The query string as the specification words it *)

(** A keyword is rendered as its name, a string as it is, any other value
    as [str] gives it; nothing is escaped. *)
Definition plain (env : Env) (v : value) : string :=
  match v with
  | VKw t => kw_name t
  | VStr s => s
  | _ => str env v
  end.

(** One [key=value] pair. *)
Definition query_pair (env : Env) (e : key * value) : string :=
  plain env (key_value (fst e)) ++ "=" ++ plain env (snd e).

(** A non-empty string, as the specification asks of email and password. *)
Definition is_non_empty_string (v : value) : bool :=
  match v with
  | VStr "" => false
  | VStr _ => true
  | _ => false
  end.

(** The response the client goes on with: the one returned, or the
    [:object] of the ExceptionInfo; none when another exception is thrown. *)
Definition delivered (o : outcome) : option (option response) :=
  match o with
  | Responds r => Some (Some r)
  | ThrowsInfo object => Some object
  | ThrowsOther _ => None
  end.

(** [sub] occurs in [s]. *)
Definition contains (s sub : string) : Prop :=
  exists before after, s = before ++ sub ++ after.

(** Every key of every map of the value, at any depth, satisfies [p]. *)
Fixpoint keys_all (p : key -> bool) (v : value) : bool :=
  match v with
  | VVec items => forallb (keys_all p) items
  | VMap entries =>
      forallb (fun e => match e with
                        | (k, x) => p k && keys_all p x
                        end) entries
  | _ => true
  end.

Definition is_string_key (k : key) : bool :=
  match k with KStr _ => true | _ => false end.

Definition is_keyword_key (k : key) : bool :=
  match k with KKw _ => true | _ => false end.

(** No map has a string for a key. *)
Definition string_keys_free (v : value) : bool :=
  keys_all (fun k => negb (is_string_key k)) v.

(** The keys are strings throughout, as in a value read from JSON. *)
Definition string_keys_only (v : value) : bool := keys_all is_string_key v.

(** The keys are keywords throughout. *)
Definition keyword_keys_only (v : value) : bool := keys_all is_keyword_key v.

(** ** A small environment to run the client in *)

Definition dq : string := String (ascii_of_nat 34) "".

(** A JSON writer for the values used below: [nil], integers, strings and
    keywords without escapes, flat maps. *)
Definition demo_atom (v : value) : option string :=
  match v with
  | VNil => Some "null"
  | VInt n => Some (decimal n)
  | VStr s => Some (dq ++ s ++ dq)
  | VKw t => Some (dq ++ kw_name t ++ dq)
  | _ => None
  end.

Fixpoint demo_fields (m : list (key * value)) : option (list string) :=
  match m with
  | [] => Some []
  | (k, v) :: m' =>
      match k, demo_atom (name_if_keyword (key_value k)), demo_atom v,
            demo_fields m' with
      | KNil, _, _, _ => None
      | _, Some ks, Some vs, Some rest =>
          Some ((match k with KInt _ => dq ++ ks ++ dq | _ => ks end
                 ++ ":" ++ vs) :: rest)
      | _, _, _, _ => None
      end
  end.

Definition demo_write_str (v : value) : option string :=
  match v with
  | VMap m =>
      match demo_fields m with
      | Some fs => Some ("{" ++ String.concat "," fs ++ "}")
      | None => None
      end
  | _ => demo_atom v
  end.

(** The session object the demo server answers a login with. *)
Definition session_json : string := "{" ++ dq ++ "id" ++ dq ++ ":7}".

(** A JSON reader that knows the texts the demo server sends. *)
Definition demo_read_str (s : string) : option value :=
  if String.eqb s session_json then Some (VMap [(KStr "id", VInt 7)])
  else if String.eqb s "[]" then Some (VVec [])
  else if String.eqb s "null" then Some VNil
  else None.

Definition demo_env (server : list request -> request -> outcome) : Env :=
  {| url_prefix := "http://localhost:3000/api/";
     write_str := demo_write_str;
     read_str := demo_read_str;
     hash_map := fun _ => None;
     coll_str := fun _ => "";
     http := server |}.

(** A server that opens a session for every login and answers the other
    requests with 200 and an empty list when they carry the session, with
    a 401 ExceptionInfo when they do not. *)
Definition friendly (_ : list request) (rq : request) : outcome :=
  if String.eqb (req_url rq) "http://localhost:3000/api/session"
  then Responds {| status := Some 200%Z; resp_body := Some session_json |}
  else match headers (req_map rq) with
       | [(_, VInt 7)] => Responds {| status := Some 200%Z; resp_body := Some "[]" |}
       | _ => ThrowsInfo (Some {| status := Some 401%Z;
                                  resp_body := Some "Unauthenticated" |})
       end.

(** A server that refuses every login with 401 and serves the rest. *)
Definition refusing (_ : list request) (rq : request) : outcome :=
  if String.eqb (req_url rq) "http://localhost:3000/api/session"
  then ThrowsInfo (Some {| status := Some 401%Z; resp_body := Some "nope" |})
  else Responds {| status := Some 200%Z; resp_body := Some "plain text" |}.

(** A transport whose ExceptionInfo carries no [:object]. *)
Definition bare_info (_ : list request) (_ : request) : outcome :=
  ThrowsInfo None.

(** A transport that cannot connect. *)
Definition unreachable (_ : list request) (_ : request) : outcome :=
  ThrowsOther "Connection refused".

Definition creds (email password : string) : value :=
  VMap [(KKw "email", VStr email); (KKw "password", VStr password)].


(** ** The argument list of [client] *)

(** An optional positional argument: there or not. *)
Definition opt_arg (o : option value) : list value :=
  match o with Some v => [v] | None => [] end.

(** What [-client] is given for an optional argument that is left out. *)
Definition or_nil (o : option value) : value :=
  match o with Some v => v | None => VNil end.

(** The arguments of a call of [client], in the order of its arglists:
    credentials?, method, expected status?, URL, body?, keyword arguments. *)
Definition arguments (credentials : option value) (method : value)
  (expected_status : option value) (url : value) (http_body : option value)
  (url_kwargs : list value) : list value :=
  (opt_arg credentials ++ method :: opt_arg expected_status
     ++ url :: opt_arg http_body ++ url_kwargs)%list.

(** What every request of the client has: the JSON content type and
    accept entries, the session header and nothing else for a header, a
    URL under the prefix. *)
Definition client_request (env : Env) (rq : request) : Prop :=
  content_type (req_map rq) = VKw "json" /\
  accept (req_map rq) = VKw "json" /\
  (exists token, headers (req_map rq) = [("X-METABASE-SESSION", token)]) /\
  (exists rest, req_url rq = url_prefix env ++ rest).

(** ** Keys normalized to keywords, as the specification words it *)

(** Every entry of every map stays in its place; a string key becomes the
    keyword of the same text, and the values are normalized in turn. *)
Definition key_to_keyword (k : key) : key :=
  match k with KStr s => KKw s | _ => k end.

Fixpoint keys_to_keywords (v : value) : value :=
  match v with
  | VVec items => VVec (map keys_to_keywords items)
  | VMap entries =>
      VMap (map (fun e => match e with
                          | (k, x) => (key_to_keyword k, keys_to_keywords x)
                          end) entries)
  | _ => v
  end.

(** The keys of a list are pairwise different. *)
Fixpoint distinct_keys (ks : list key) : bool :=
  match ks with
  | [] => true
  | k :: ks' => negb (existsb (key_eqb k) ks') && distinct_keys ks'
  end.

(** A value as it is read from JSON: at every depth the keys of a map are
    strings, and they are pairwise different, as the keys of a map are. *)
Fixpoint json_keys (v : value) : bool :=
  match v with
  | VVec items => forallb json_keys items
  | VMap entries =>
      forallb (fun e => is_string_key (fst e)) entries
      && distinct_keys (map fst entries)
      && forallb (fun e => match e with (_, x) => json_keys x end) entries
  | _ => true
  end.

(** ** JSON texts *)

(** The grammar of RFC 8259: a JSON text is one value with white space
    around it. *)
Definition is_ws (c : ascii) : bool :=
  match nat_of_ascii c with
  | 9 | 10 | 13 | 32 => true
  | _ => false
  end.

Definition is_digit (c : ascii) : bool :=
  Nat.leb 48 (nat_of_ascii c) && Nat.leb (nat_of_ascii c) 57.

Definition is_hex (c : ascii) : bool :=
  is_digit c
  || (Nat.leb 65 (nat_of_ascii c) && Nat.leb (nat_of_ascii c) 70)
  || (Nat.leb 97 (nat_of_ascii c) && Nat.leb (nat_of_ascii c) 102).

Fixpoint skip_ws (s : string) : string :=
  match s with
  | String c s' => if is_ws c then skip_ws s' else s
  | EmptyString => s
  end.

Fixpoint skip_digits (s : string) : string :=
  match s with
  | String c s' => if is_digit c then skip_digits s' else s
  | EmptyString => s
  end.

(** Each of the functions below gives what is left of the text after
    the part it recognizes, [None] when that part is not there. *)
Definition digits1 (s : string) : option string :=
  match s with
  | String c s' => if is_digit c then Some (skip_digits s') else None
  | EmptyString => None
  end.

Definition json_exp (s : string) : option string :=
  match s with
  | String c s' =>
      if Ascii.eqb c "e" || Ascii.eqb c "E" then
        match s' with
        | String d r =>
            if Ascii.eqb d "+" || Ascii.eqb d "-" then digits1 r
            else digits1 s'
        | EmptyString => None
        end
      else Some s
  | EmptyString => Some s
  end.

Definition json_frac (s : string) : option string :=
  match s with
  | String c s' =>
      if Ascii.eqb c "." then
        match digits1 s' with
        | Some r => json_exp r
        | None => None
        end
      else json_exp s
  | EmptyString => Some s
  end.

Definition json_number (s : string) : option string :=
  let s1 := match s with
            | String c r => if Ascii.eqb c "-" then r else s
            | EmptyString => s
            end in
  match s1 with
  | String c r =>
      if Ascii.eqb c "0" then json_frac r
      else if is_digit c then json_frac (skip_digits r)
      else None
  | EmptyString => None
  end.

Fixpoint strip_prefix (p s : string) : option string :=
  match p, s with
  | EmptyString, _ => Some s
  | String a p', String b s' => if Ascii.eqb a b then strip_prefix p' s' else None
  | String _ _, EmptyString => None
  end.

Definition is_simple_escape (c : ascii) : bool :=
  existsb (Ascii.eqb c)
    [ascii_of_nat 34; ascii_of_nat 92; "/"; "b"; "f"; "n"; "r"; "t"]%char.

(** The characters of a string and its closing quote. *)
Fixpoint json_chars (s : string) : option string :=
  match s with
  | EmptyString => None
  | String c s' =>
      if Ascii.eqb c (ascii_of_nat 34) then Some s'
      else if Ascii.eqb c (ascii_of_nat 92) then
        match s' with
        | String e r =>
            if is_simple_escape e then json_chars r
            else if Ascii.eqb e "u" then
              match r with
              | String h1 (String h2 (String h3 (String h4 r'))) =>
                  if is_hex h1 && is_hex h2 && is_hex h3 && is_hex h4
                  then json_chars r' else None
              | _ => None
              end
            else None
        | EmptyString => None
        end
      else if Nat.ltb (nat_of_ascii c) 32 then None
      else json_chars s'
  end.

Fixpoint json_value (fuel : nat) (s : string) : option string :=
  match fuel with
  | O => None
  | S fuel' =>
      match s with
      | EmptyString => None
      | String c s' =>
          if Ascii.eqb c "{" then
            match skip_ws s' with
            | String c1 r =>
                if Ascii.eqb c1 "}" then Some r
                else json_members fuel' (String c1 r)
            | EmptyString => None
            end
          else if Ascii.eqb c "[" then
            match skip_ws s' with
            | String c1 r =>
                if Ascii.eqb c1 "]" then Some r
                else json_elements fuel' (String c1 r)
            | EmptyString => None
            end
          else if Ascii.eqb c (ascii_of_nat 34) then json_chars s'
          else if Ascii.eqb c "t" then strip_prefix "true" s
          else if Ascii.eqb c "f" then strip_prefix "false" s
          else if Ascii.eqb c "n" then strip_prefix "null" s
          else json_number s
      end
  end
with json_elements (fuel : nat) (s : string) : option string :=
  match fuel with
  | O => None
  | S fuel' =>
      match json_value fuel' s with
      | Some r =>
          match skip_ws r with
          | String c r' =>
              if Ascii.eqb c "," then json_elements fuel' (skip_ws r')
              else if Ascii.eqb c "]" then Some r'
              else None
          | EmptyString => None
          end
      | None => None
      end
  end
with json_members (fuel : nat) (s : string) : option string :=
  match fuel with
  | O => None
  | S fuel' =>
      match s with
      | String q s' =>
          if Ascii.eqb q (ascii_of_nat 34) then
            match json_chars s' with
            | Some r =>
                match skip_ws r with
                | String c r1 =>
                    if Ascii.eqb c ":" then
                      match json_value fuel' (skip_ws r1) with
                      | Some r2 =>
                          match skip_ws r2 with
                          | String c2 r3 =>
                              if Ascii.eqb c2 "," then
                                json_members fuel' (skip_ws r3)
                              else if Ascii.eqb c2 "}" then Some r3
                              else None
                          | EmptyString => None
                          end
                      | None => None
                      end
                    else None
                | EmptyString => None
                end
            | None => None
            end
          else None
      | EmptyString => None
      end
  end.

(** The text is a JSON text: one value, white space around it and nothing
    else.  The recognizer is given twice the length of the text for fuel,
    each of its steps taking at least one character. *)
Definition is_json_text (s : string) : bool :=
  match json_value (2 * String.length s + 2) (skip_ws s) with
  | Some r =>
      match skip_ws r with
      | EmptyString => true
      | String _ _ => false
      end
  | None => false
  end.

(** ** More environments *)

(** The number the leading digits of a text denote. *)
Fixpoint digits_value (acc : Z) (s : string) : Z :=
  match s with
  | String c s' =>
      if is_digit c
      then digits_value (10 * acc + Z.of_nat (nat_of_ascii c - 48)) s'
      else acc
  | EmptyString => acc
  end.

(** A reader for texts that start with digits, which does as
    clojure.data.json/read-str does: it skips the white space, reads one
    value and does not look at what follows it. *)
Definition read_leading_integer (s : string) : option value :=
  match skip_ws s with
  | String c s' =>
      if is_digit c then Some (VInt (digits_value 0 (String c s'))) else None
  | EmptyString => None
  end.

(** A server whose answer starts with a number and goes on. *)
Definition apples (_ : list request) (_ : request) : outcome :=
  Responds {| status := Some 200%Z; resp_body := Some "7 apples" |}.

Definition lenient_env : Env :=
  {| url_prefix := "http://localhost:3000/api/";
     write_str := demo_write_str;
     read_str := read_leading_integer;
     hash_map := fun _ => None;
     coll_str := fun _ => "";
     http := apples |}.

(** A JSON object with an array of objects in it, and what is read of it. *)
Definition nested_json : string :=
  "{" ++ dq ++ "id" ++ dq ++ ":1," ++ dq ++ "tags" ++ dq ++ ":[{"
  ++ dq ++ "name" ++ dq ++ ":" ++ dq ++ "x" ++ dq ++ "}]}".

Definition nested_value : value :=
  VMap [ (KStr "id", VInt 1);
         (KStr "tags", VVec [VMap [(KStr "name", VStr "x")]]) ].

Definition nested_server (_ : list request) (_ : request) : outcome :=
  Responds {| status := Some 200%Z; resp_body := Some nested_json |}.

Definition nested_env : Env :=
  {| url_prefix := "http://localhost:3000/api/";
     write_str := demo_write_str;
     read_str := fun s => if String.eqb s nested_json then Some nested_value
                          else None;
     hash_map := fun _ => None;
     coll_str := fun _ => "";
     http := nested_server |}.

(** A server that answers every request with 202 and a session object. *)
Definition accepted (_ : list request) (_ : request) : outcome :=
  Responds {| status := Some 202%Z; resp_body := Some session_json |}.

(** * Properties *)

(** ** Strings and sequences *)

Lemma apply_str_interpose (sep : string) (xs : list string) :
  apply_str (interpose sep xs) = String.concat sep xs.
Proof.
  induction xs as [|x [|y ys] IH]; simpl in *.
  - reflexivity.
  - destruct x; simpl; [reflexivity|].
    f_equal. clear. induction x; simpl; congruence.
  - now rewrite IH.
Qed.

Lemma append_assoc (a b c : string) : (a ++ b) ++ c = a ++ (b ++ c).
Proof. induction a; simpl; congruence. Qed.

Lemma append_empty_r (a : string) : a ++ "" = a.
Proof. induction a; simpl; congruence. Qed.

(** ** The anatomy of a call *)

Lemma case_method_keyword (m : value) (f : request_fn) :
  case_method m = Ok f -> exists t, m = VKw t.
Proof.
  destruct m; simpl; try discriminate. intros _. now exists text.
Qed.

(** Once the request is prepared, the call is decided by its outcome. *)
Lemma _client_prepared env auth c m e u b k w w1 rq :
  prepare env auth c m e u b k w = Some (w1, rq) ->
  _client_body env auth c m e u b k w =
  match http env (sent w1) rq with
  | Responds r =>
      check_and_parse env (method_name m) (req_url rq) e (Some r)
        (sending w1 rq)
  | ThrowsInfo object =>
      (println [method_name m; req_url rq] ;;
       check_and_parse env (method_name m) (req_url rq) e object)
        (sending w1 rq)
  | ThrowsOther msg => (Throw (Exception msg), sending w1 rq)
  end.
Proof.
  unfold prepare, _client_body. intros H.
  destruct (_client_pre c m e u b k) as [[]| |] eqn:Hpre; try discriminate.
  destruct (when_credentials auth c w) as [[tok| |] w1'] eqn:Hauth;
    try discriminate.
  destruct (write_str env b) as [json|] eqn:Hjson; try discriminate.
  destruct (case_method m) as [f| |] eqn:Hcase; try discriminate.
  destruct (build_url env u k) as [full| |] eqn:Hurl; try discriminate.
  injection H as <- <-.
  destruct (case_method_keyword _ _ Hcase) as [t ->].
  unfold bind, lift, try_catch, call. rewrite Hauth.
  cbn [name method_name req_url sent].
  destruct (http env (sent w1') _); reflexivity.
Qed.

Lemma prepare_request env auth c m e u b k w w1 rq :
  prepare env auth c m e u b k w = Some (w1, rq) ->
  _client_pre c m e u b k = Ok tt /\
  (exists token,
      when_credentials auth c w = (Ok token, w1) /\
      headers (req_map rq) = [("X-METABASE-SESSION", token)]) /\
  write_str env b = Some (body (req_map rq)) /\
  case_method m = Ok (req_fn rq) /\
  build_url env u k = Ok (req_url rq).
Proof.
  unfold prepare. intros H.
  destruct (_client_pre c m e u b k) as [[]| |]; try discriminate.
  destruct (when_credentials auth c w) as [[tok| |] w1']; try discriminate.
  destruct (write_str env b); try discriminate.
  destruct (case_method m); try discriminate.
  destruct (build_url env u k); try discriminate.
  injection H as <- <-. simpl. repeat split. now exists tok.
Qed.

(** The status check lets the response through when no status is expected
    or the expected one came. *)
Lemma check_passes env mn url e resp w :
  truthy e = false \/ status_eq (status_of resp) e = true ->
  fst (check_and_parse env mn url e resp w)
  = Ok (parse_body env (body_of resp)).
Proof.
  intros H. unfold check_and_parse, bind, println, ret. simpl.
  destruct (truthy e); [|reflexivity].
  destruct H as [H|H]; [discriminate|]. now rewrite H.
Qed.

(** It throws when another status came: the exception with the message,
    or the one [format] throws on the way to the message. *)
Lemma check_fails env mn url e resp w :
  truthy e = true -> status_eq (status_of resp) e = false ->
  fst (check_and_parse env mn url e resp w)
  = match mismatch_message mn url e (status_of resp) with
    | Ok message => Throw (Exception message)
    | Throw t => Throw t
    | OutOfFuel => OutOfFuel
    end.
Proof.
  intros H1 H2. unfold check_and_parse, bind, println, ret, throw, lift.
  simpl. rewrite H1, H2.
  now destruct (mismatch_message mn url e (status_of resp)).
Qed.

(** [format] prints or throws an exception. *)
Lemma mismatch_message_throws mn url e st :
  match mismatch_message mn url e st with
  | Ok _ => True
  | Throw t => is_Exception t = true
  | OutOfFuel => False
  end.
Proof.
  unfold mismatch_message. destruct e, st; simpl; auto.
Qed.

(** After a delivered response the call is the status check and the
    parse. *)
Lemma _client_delivered env auth c m e u b k w w1 rq resp :
  prepare env auth c m e u b k w = Some (w1, rq) ->
  delivered (http env (sent w1) rq) = Some resp ->
  exists w2,
    fst (_client_body env auth c m e u b k w)
    = fst (check_and_parse env (method_name m) (req_url rq) e resp w2).
Proof.
  intros Hp Hd. rewrite (_client_prepared _ _ _ _ _ _ _ _ _ _ _ Hp).
  destruct (http env (sent w1) rq); simpl in Hd; try discriminate;
    injection Hd as <-.
  - now eexists.
  - unfold bind at 1, println at 1. now eexists.
Qed.

Lemma contains_intro (a sub b : string) : contains (a ++ sub ++ b) sub.
Proof. now exists a, b. Qed.

(** ** The status check *)

(** C1. When an expected status is supplied and the response has another
    status, the call throws.  For an expected status of a class [%d]
    prints, the message of the exception is the upper-cased method name,
    the full URL, the expected status and the actual status (in the words
    of the format string), so it contains each of them.  For an expected
    status that is a clojure.lang.BigInt, which the precondition admits,
    [format] throws instead, and the exception that reaches the caller
    names none of the four.  When no status is expected, or the expected
    one came, the call returns the parsed body and throws nothing. *)
Theorem status_mismatch_raises env fuel c m e u b k w w1 rq resp :
  prepare env (authenticate env fuel) c m e u b k w = Some (w1, rq) ->
  delivered (http env (sent w1) rq) = Some resp ->
  build_url env u k = Ok (req_url rq) /\
  (forall n, e = VInt n -> status_of resp <> Some n ->
     let actual := match status_of resp with
                   | Some s => decimal s
                   | None => "null"
                   end in
     let msg := method_name m ++ " " ++ req_url rq
                ++ " expected a status code of " ++ decimal n
                ++ ", got " ++ actual in
     fst (_client env fuel c m e u b k w) = Throw (Exception msg) /\
     contains msg (method_name m) /\ contains msg (req_url rq) /\
     contains msg (decimal n) /\ contains msg actual) /\
  (forall n, e = VBigInt n -> status_of resp <> Some n ->
     fst (_client env fuel c m e u b k w)
     = Throw (Exception "d != clojure.lang.BigInt")) /\
  (e = VNil \/
   (exists n, (e = VInt n \/ e = VBigInt n) /\ status_of resp = Some n) ->
     fst (_client env fuel c m e u b k w)
     = Ok (parse_body env (body_of resp))).
Proof.
  intros Hp Hd.
  destruct (_client_delivered _ _ _ _ _ _ _ _ _ _ _ _ Hp Hd) as [w2 Hrun].
  unfold _client. rewrite Hrun. split; [|split; [|split]].
  - apply (prepare_request _ _ _ _ _ _ _ _ _ _ _ Hp).
  - intros n -> Hne. cbv zeta. split; [|repeat split].
    + rewrite check_fails; [|reflexivity|].
      * unfold mismatch_message. simpl.
        destruct (status_of resp); reflexivity.
      * destruct (status_of resp) as [s|]; simpl; [|reflexivity].
        apply Z.eqb_neq. congruence.
    + apply (contains_intro "").
    + exists (method_name m ++ " "). eexists.
      rewrite !append_assoc. reflexivity.
    + exists (method_name m ++ " " ++ req_url rq
              ++ " expected a status code of "). eexists.
      rewrite !append_assoc. reflexivity.
    + eexists. exists "". rewrite append_empty_r.
      rewrite <- !append_assoc. reflexivity.
  - intros n -> Hne. rewrite check_fails; [reflexivity|reflexivity|].
    destruct (status_of resp) as [s|]; simpl; [|reflexivity].
    apply Z.eqb_neq. congruence.
  - intros H. apply check_passes. destruct H as [->|[n [[-> | ->] Hs]]].
    + now left.
    + right. rewrite Hs. simpl. apply Z.eqb_refl.
    + right. rewrite Hs. simpl. apply Z.eqb_refl.
Qed.

Lemma status_mismatch_raises_witness :
  _client_pre VNil (VKw "get") (VBigInt 404) (VStr "card") VNil VNil = Ok tt /\
  fst (_client (demo_env refusing) 1 VNil (VKw "get") (VBigInt 404)
         (VStr "card") VNil VNil start)
  = Throw (Exception "d != clojure.lang.BigInt") /\
  fst (_client (demo_env refusing) 1 VNil (VKw "get") (VInt 404)
         (VStr "card") VNil VNil start)
  = Throw (Exception
      "GET http://localhost:3000/api/card expected a status code of 404, got 200").
Proof.
  split; [reflexivity|split].
  - pose proof (status_mismatch_raises (demo_env refusing) 1 VNil (VKw "get")
                  (VBigInt 404) (VStr "card") VNil VNil start start _ _
                  eq_refl eq_refl) as (_ & _ & H & _).
    apply (H 404%Z eq_refl). discriminate.
  - pose proof (status_mismatch_raises (demo_env refusing) 1 VNil (VKw "get")
                  (VInt 404) (VStr "card") VNil VNil start start _ _
                  eq_refl eq_refl) as (_ & H & _).
    destruct (H 404%Z eq_refl) as [Hthrow _]; [discriminate|].
    exact Hthrow.
Defined.

(** ** Keywordized keys *)

Lemma value_nested_ind (P : value -> Prop) :
  P VNil -> (forall b, P (VBool b)) -> (forall n, P (VInt n)) ->
  (forall n, P (VBigInt n)) ->
  (forall s, P (VStr s)) -> (forall t, P (VKw t)) ->
  (forall items, Forall P items -> P (VVec items)) ->
  (forall entries, Forall (fun e => P (snd e)) entries -> P (VMap entries)) ->
  forall v, P v.
Proof.
  intros Hnil Hbool Hint Hbig Hstr Hkw Hvec Hmap.
  fix IH 1.
  intros [ | b | n | n | s | t | items | entries];
    [exact Hnil | apply Hbool | apply Hint | apply Hbig | apply Hstr
    | apply Hkw | | ].
  - apply Hvec. induction items as [|x items IHitems]; constructor.
    + apply IH.
    + exact IHitems.
  - apply Hmap. induction entries as [|[k x] entries IHentries]; constructor.
    + apply IH.
    + exact IHentries.
Qed.

Lemma key_eqb_eq (a b : key) : key_eqb a b = true -> a = b.
Proof.
  destruct a, b; simpl; try discriminate; intros H; f_equal.
  - reflexivity.
  - now apply Bool.eqb_prop.
  - now apply Z.eqb_eq.
  - now apply String.eqb_eq.
  - now apply String.eqb_eq.
Qed.

Lemma in_assoc (m : list (key * value)) k v e :
  In e (assoc m k v) -> In e m \/ e = (k, v).
Proof.
  induction m as [|[k' v'] m IH]; simpl.
  - intros [<-|[]]. now right.
  - destruct (key_eqb k k') eqn:E; simpl.
    + apply key_eqb_eq in E as <-. intros [<-|H]; auto.
    + intros [<-|H]; auto. destruct (IH H); auto.
Qed.

Lemma in_into (es m : list (key * value)) e :
  In e (into m es) -> In e m \/ In e es.
Proof.
  unfold into. revert m. induction es as [|[k v] es IH]; simpl; intros m H.
  - now left.
  - destruct (IH _ H) as [H'|H']; auto.
    destruct (in_assoc _ _ _ _ H') as [H''| ->]; auto.
Qed.

Lemma forall_into (P : key * value -> Prop) (es : list (key * value)) :
  Forall P es -> Forall P (into [] es).
Proof.
  rewrite !Forall_forall. intros H e He.
  destruct (in_into _ _ _ He) as [[]|He']. now apply H.
Qed.

(** keywordize-keys carries a property of the keys over to the keys it
    makes of them. *)
Lemma keywordize_keys_keys (p q : key -> bool) :
  (forall k x, p k = true -> q (fst (keywordize_entry (k, x))) = true) ->
  forall v, keys_all p v = true -> keys_all q (keywordize_keys v) = true.
Proof.
  intros Hpq.
  induction v as [ | | | | | | items IH | entries IH] using value_nested_ind;
    try reflexivity; simpl; rewrite !forallb_forall; intros Hv.
  - intros x Hx. apply in_map_iff in Hx as [y [<- Hy]].
    rewrite Forall_forall in IH. apply IH; auto.
  - rewrite <- Forall_forall.
    apply forall_into, Forall_map, Forall_forall. intros [k x] Hkx.
    apply in_into in Hkx as [[]|Hkx].
    apply in_map_iff in Hkx as [[k' y] [[= <- <-] Hy]].
    rewrite Forall_forall in IH. specialize (IH _ Hy).
    specialize (Hv _ Hy). simpl in IH, Hv.
    apply andb_true_iff in Hv as [Hk Hy'].
    specialize (Hpq k' (keywordize_keys y) Hk).
    unfold keywordize_entry in *. simpl in *.
    destruct k'; simpl in *; rewrite ?Hpq; auto.
Qed.

(** Every string key is gone after keywordize-keys, at every depth. *)
Lemma keywordize_keys_normalizes (v : value) :
  string_keys_free (keywordize_keys v) = true.
Proof.
  apply (keywordize_keys_keys (fun _ => true)).
  - intros [] x _; reflexivity.
  - clear. induction v as [ | | | | | | items IH | entries IH]
      using value_nested_ind; try reflexivity; simpl;
      rewrite forallb_forall; rewrite Forall_forall in IH.
    + exact IH.
    + intros [k x] Hkx. exact (IH _ Hkx).
Qed.

(** A value whose keys are strings, as JSON gives, has keywords for
    keys afterwards. *)
Lemma keywordize_keys_of_json (v : value) :
  string_keys_only v = true -> keyword_keys_only (keywordize_keys v) = true.
Proof.
  apply keywordize_keys_keys. intros [] x H; try discriminate; reflexivity.
Qed.

Lemma check_result env mn url e resp w :
  fst (check_and_parse env mn url e resp w)
  = Ok (parse_body env (body_of resp)) \/
  truthy e = true /\ status_eq (status_of resp) e = false /\
  fst (check_and_parse env mn url e resp w)
  = match mismatch_message mn url e (status_of resp) with
    | Ok message => Throw (Exception message)
    | Throw t => Throw t
    | OutOfFuel => OutOfFuel
    end.
Proof.
  destruct (truthy e) eqn:Ht.
  - destruct (status_eq (status_of resp) e) eqn:Hs.
    + left. apply check_passes. now right.
    + right. repeat split. now apply check_fails.
  - left. apply check_passes. now left.
Qed.

(** The status check returns or throws an exception. *)
Lemma check_outcome env mn url e resp w :
  match fst (check_and_parse env mn url e resp w) with
  | Ok _ => True
  | Throw t => is_Exception t = true
  | OutOfFuel => False
  end.
Proof.
  destruct (check_result env mn url e resp w) as [-> |(_ & _ & ->)];
    [exact I|].
  pose proof (mismatch_message_throws mn url e (status_of resp)) as H.
  now destruct (mismatch_message mn url e (status_of resp)).
Qed.

(** ** Keywordized keys of a value read from JSON *)

Lemma key_eqb_refl (k : key) : key_eqb k k = true.
Proof.
  destruct k; simpl; auto using Bool.eqb_reflx, Z.eqb_refl, String.eqb_refl.
Qed.

Lemma distinct_keys_NoDup (ks : list key) :
  distinct_keys ks = true -> NoDup ks.
Proof.
  induction ks as [|k ks IH]; simpl; [constructor|].
  rewrite andb_true_iff, negb_true_iff. intros [Hk Hks].
  constructor; [|auto]. intros Hin.
  assert (H : existsb (key_eqb k) ks = true).
  { apply existsb_exists. exists k. split; [exact Hin|apply key_eqb_refl]. }
  congruence.
Qed.

(** A key that is not there goes last. *)
Lemma assoc_fresh (m : list (key * value)) k v :
  ~ In k (map fst m) -> assoc m k v = (m ++ [(k, v)])%list.
Proof.
  induction m as [|[k' v'] m IH]; simpl; [reflexivity|]. intros Hk.
  destruct (key_eqb k k') eqn:E.
  - apply key_eqb_eq in E. exfalso. apply Hk. now left.
  - f_equal. apply IH. intros Hin. apply Hk. now right.
Qed.

(** Entries with keys that are new and different are added in order. *)
Lemma into_app (es m : list (key * value)) :
  NoDup (map fst (m ++ es)) -> into m es = (m ++ es)%list.
Proof.
  unfold into. revert m. induction es as [|[k v] es IH]; simpl; intros m H.
  - now rewrite app_nil_r.
  - rewrite assoc_fresh.
    + rewrite IH; rewrite <- app_assoc; [reflexivity|exact H].
    + rewrite map_app in H. simpl in H. apply NoDup_remove_2 in H.
      intros Hin. apply H. apply in_or_app. now left.
Qed.

Lemma keywords_of_strings_NoDup (ks : list key) :
  forallb is_string_key ks = true -> NoDup ks ->
  NoDup (map key_to_keyword ks).
Proof.
  induction ks as [|k ks IH]; simpl; [constructor|].
  rewrite andb_true_iff. intros [Hk Hks] Hnd.
  inversion Hnd as [|? ? Hnotin Hnd']; subst.
  constructor; [|auto]. intros Hin.
  apply in_map_iff in Hin as (k' & Heq & Hin').
  rewrite forallb_forall in Hks. specialize (Hks k' Hin').
  destruct k, k'; try discriminate. simpl in Heq.
  injection Heq as ->. contradiction.
Qed.

Lemma keywordize_entry_pair (k : key) (x : value) :
  keywordize_entry (k, x) = (key_to_keyword k, x).
Proof. now destruct k. Qed.

(** On a value read from JSON, keywordize-keys is the normalization of
    the specification: no entry is lost, added or moved, every key keeps
    its text, every value is normalized in turn. *)
Lemma keywordize_keys_json (v : value) :
  json_keys v = true -> keywordize_keys v = keys_to_keywords v.
Proof.
  induction v as [ | | | | | | items IH | entries IH] using value_nested_ind;
    intros Hv; try reflexivity;
    cbn [keywordize_keys keys_to_keywords]; cbn [json_keys] in Hv.
  - f_equal. apply map_ext_in. intros x Hx.
    rewrite Forall_forall in IH. rewrite forallb_forall in Hv. auto.
  - rewrite !andb_true_iff in Hv. destruct Hv as [[Hstr Hdist] Hvals].
    apply distinct_keys_NoDup in Hdist.
    set (walked := map (fun e : key * value =>
                          let (k, x) := e in (k, keywordize_keys x)) entries).
    assert (Hkeys : map fst walked = map fst entries).
    { unfold walked. rewrite map_map. apply map_ext. now intros [k x]. }
    assert (Hwalked : into [] walked = walked).
    { apply (into_app walked []). simpl. now rewrite Hkeys. }
    rewrite Hwalked.
    assert (Hkeys' : map fst (map keywordize_entry walked)
                     = map key_to_keyword (map fst entries)).
    { rewrite <- Hkeys, !map_map. apply map_ext. intros [k x].
      now rewrite keywordize_entry_pair. }
    assert (Hconv : into [] (map keywordize_entry walked)
                    = map keywordize_entry walked).
    { apply (into_app _ []). simpl. rewrite Hkeys'.
      apply keywords_of_strings_NoDup; [|exact Hdist].
      rewrite forallb_forall in Hstr. apply forallb_forall.
      intros k Hk. apply in_map_iff in Hk as (e & <- & He). auto. }
    rewrite Hconv. f_equal. unfold walked. rewrite map_map.
    apply map_ext_in. intros [k x] Hkx.
    rewrite keywordize_entry_pair. f_equal.
    rewrite Forall_forall in IH. rewrite forallb_forall in Hvals.
    exact (IH _ Hkx (Hvals _ Hkx)).
Qed.

(** What a JSON object has under a string is found under the keyword of
    that string afterwards. *)
Lemma keywordize_keys_lookup (m : list (key * value)) (s : string) x :
  json_keys (VMap m) = true -> lookup (KStr s) m = Some x ->
  get (keywordize_keys (VMap m)) (KKw s) = keywordize_keys x.
Proof.
  intros Hm Hx. rewrite (keywordize_keys_json _ Hm). simpl.
  simpl in Hm. rewrite !andb_true_iff in Hm. destruct Hm as [[Hstr _] Hvals].
  induction m as [|[k y] m IH]; simpl in *; [discriminate|].
  rewrite andb_true_iff in Hstr, Hvals.
  destruct Hstr as [Hk Hstr], Hvals as [Hy Hvals].
  destruct k; try discriminate. simpl in *.
  destruct (String.eqb s s0).
  - injection Hx as <-. symmetry. now apply keywordize_keys_json.
  - now apply IH.
Qed.

(** ** The returned body *)

(** C2, as the code has it.  Whenever the status check lets the response
    through, the call returns what read-str reads of the body with the
    keys of its maps keywordized, and the body text as it is when read-str
    throws; a call that went as far as a response throws nothing but what
    the status check throws, so a failure to parse never reaches the
    caller.  Of a value read from JSON (string keys, different within a
    map) the keywordized value is the normalization the specification
    describes: the same entries in the same order, each string key turned
    into the keyword of the same text, each value normalized in turn; so
    no string key is left at any depth, every key is a keyword, and what
    was under a string is found under its keyword. *)
Theorem body_parsed_or_raw env fuel c m e u b k w w1 rq resp :
  prepare env (authenticate env fuel) c m e u b k w = Some (w1, rq) ->
  delivered (http env (sent w1) rq) = Some resp ->
  let returned :=
    match body_of resp with
    | Some text =>
        match read_str env text with
        | Some parsed => keywordize_keys parsed
        | None => VStr text
        end
    | None => VNil
    end in
  (truthy e = false \/ status_eq (status_of resp) e = true ->
   fst (_client env fuel c m e u b k w) = Ok returned) /\
  (fst (_client env fuel c m e u b k w) = Ok returned \/
   status_eq (status_of resp) e = false /\
   fst (_client env fuel c m e u b k w)
   = match mismatch_message (method_name m) (req_url rq) e (status_of resp)
     with
     | Ok message => Throw (Exception message)
     | Throw t => Throw t
     | OutOfFuel => OutOfFuel
     end) /\
  (forall parsed, json_keys parsed = true ->
                  keywordize_keys parsed = keys_to_keywords parsed) /\
  (forall entries s x,
      json_keys (VMap entries) = true -> lookup (KStr s) entries = Some x ->
      get (keywordize_keys (VMap entries)) (KKw s) = keywordize_keys x) /\
  (forall parsed, string_keys_free (keywordize_keys parsed) = true) /\
  (forall parsed, string_keys_only parsed = true ->
                  keyword_keys_only (keywordize_keys parsed) = true) /\
  (forall x, get (keywordize_keys (VMap [(KStr "id", x)])) (KKw "id")
             = keywordize_keys x).
Proof.
  intros Hp Hd returned.
  destruct (_client_delivered _ _ _ _ _ _ _ _ _ _ _ _ Hp Hd) as [w2 Hrun].
  unfold _client. rewrite Hrun. repeat split.
  - apply check_passes.
  - destruct (check_result env (method_name m) (req_url rq) e resp w2)
      as [H|[_ [H1 H2]]]; [now left|now right].
  - apply keywordize_keys_json.
  - apply keywordize_keys_lookup.
  - apply keywordize_keys_normalizes.
  - apply keywordize_keys_of_json.
Qed.

Lemma body_parsed_or_raw_witness :
  is_json_text nested_json = true /\
  fst (_client nested_env 1 VNil (VKw "get") (VInt 200) (VStr "card")
         VNil VNil start)
  = Ok (VMap [ (KKw "id", VInt 1);
               (KKw "tags", VVec [VMap [(KKw "name", VStr "x")]]) ]) /\
  fst (_client (demo_env refusing) 1 VNil (VKw "get") VNil (VStr "card")
         VNil VNil start) = Ok (VStr "plain text").
Proof.
  split; [reflexivity|split].
  - pose proof (body_parsed_or_raw nested_env 1 VNil (VKw "get") (VInt 200)
                  (VStr "card") VNil VNil start start _ _ eq_refl eq_refl)
      as (H & _).
    rewrite H by (right; reflexivity). reflexivity.
  - pose proof (body_parsed_or_raw (demo_env refusing) 1 VNil (VKw "get") VNil
                  (VStr "card") VNil VNil start start _ _ eq_refl eq_refl)
      as [H _].
    apply H. left. reflexivity.
Defined.

(** C2, as it is stated, fails: read-str reads one value and does not
    look at what follows, so a body that starts with a JSON value and goes
    on is not a JSON text and yet is not returned as it is; the call
    returns the value read. *)
Lemma text_after_a_value_is_dropped :
  is_json_text "7 apples" = false /\
  http lenient_env [] {| req_fn := client_get;
                         req_url := "http://localhost:3000/api/card";
                         req_map := {| content_type := VKw "json";
                                       accept := VKw "json";
                                       headers := [("X-METABASE-SESSION", VNil)];
                                       body := "null" |} |}
  = Responds {| status := Some 200%Z; resp_body := Some "7 apples" |} /\
  fst (_client lenient_env 1 VNil (VKw "get") VNil (VStr "card") VNil VNil
         start) = Ok (VInt 7).
Proof. repeat split. Qed.

(** ** Preconditions and the request that follows them *)

Lemma _client_pre_ok c m e u b k :
  _client_pre c m e u b k = Ok tt ->
  is_nil c || is_map c = true /\ is_method m = true /\
  is_nil e || is_integer e = true /\ is_string u = true /\
  is_nil b || is_map b = true /\ is_nil k || is_map k = true.
Proof.
  unfold _client_pre, pre.
  destruct (is_nil c || is_map c); try discriminate.
  destruct (is_method m); try discriminate.
  destruct (is_nil e || is_integer e); try discriminate.
  destruct (is_string u); try discriminate.
  destruct (is_nil b || is_map b); try discriminate.
  destruct (is_nil k || is_map k); try discriminate.
  intros _. repeat split.
Qed.

(** A failed precondition stops the function where it stands. *)
Lemma pre_not_ok (conds : list (bool * string)) :
  pre conds = Ok tt \/ exists failed, pre conds = Throw (AssertionError failed).
Proof.
  induction conds as [|[[] text] conds IH]; simpl; eauto.
Qed.

Lemma is_method_case (m : value) :
  is_method m = true -> exists f, case_method m = Ok f.
Proof.
  destruct m; simpl; try discriminate.
  rewrite !orb_true_iff, !String.eqb_eq.
  intros [->|[->|[->|[->|H]]]]; try discriminate; simpl; eauto.
Qed.

Lemma build_url_ok env u k :
  is_string u = true -> is_nil k || is_map k = true ->
  exists full, build_url env u k = Ok full.
Proof.
  intros Hu Hk. unfold build_url, pre. rewrite Hu, Hk. eauto.
Qed.

(** With the preconditions met, the token obtained and the body
    serialized, the request is sent. *)
Lemma prepare_ok env auth c m e u b k w token w1 json :
  _client_pre c m e u b k = Ok tt ->
  when_credentials auth c w = (Ok token, w1) ->
  write_str env b = Some json ->
  exists rq, prepare env auth c m e u b k w = Some (w1, rq) /\
             headers (req_map rq) = [("X-METABASE-SESSION", token)] /\
             body (req_map rq) = json.
Proof.
  intros Hpre Hauth Hjson. unfold prepare. rewrite Hpre, Hauth, Hjson.
  destruct (_client_pre_ok _ _ _ _ _ _ Hpre) as (_ & Hm & _ & Hu & _ & Hk).
  destruct (is_method_case _ Hm) as [f ->].
  destruct (build_url_ok env _ _ Hu Hk) as [full ->].
  eexists. repeat split.
Qed.

Lemma check_and_parse_sent env mn url e resp w :
  sent (snd (check_and_parse env mn url e resp w)) = sent w.
Proof.
  unfold check_and_parse, bind, println, ret, throw, lift. simpl.
  destruct (truthy e); [|reflexivity].
  destruct (status_eq (status_of resp) e); [reflexivity|].
  now destruct (mismatch_message mn url e (status_of resp)).
Qed.

(** A call that gets as far as its request sends that one request, and
    nothing after it. *)
Lemma _client_sends_one env auth c m e u b k w w1 rq :
  prepare env auth c m e u b k w = Some (w1, rq) ->
  sent (snd (_client_body env auth c m e u b k w)) = (sent w1 ++ [rq])%list.
Proof.
  intros Hp. rewrite (_client_prepared _ _ _ _ _ _ _ _ _ _ _ Hp).
  destruct (http env (sent w1) rq).
  - now rewrite check_and_parse_sent.
  - unfold bind at 1, println at 1. now rewrite check_and_parse_sent.
  - reflexivity.
Qed.

(** With the preconditions met and the token obtained, nothing that
    [(catch Exception ...)] would miss is thrown, and the unfolding of the
    recursion is not exhausted. *)
Lemma _client_throws_exceptions env auth c m e u b k w token w1 :
  _client_pre c m e u b k = Ok tt ->
  when_credentials auth c w = (Ok token, w1) ->
  match fst (_client_body env auth c m e u b k w) with
  | Ok _ => True
  | Throw t => is_Exception t = true
  | OutOfFuel => False
  end.
Proof.
  intros Hpre Hauth. destruct (write_str env b) as [json|] eqn:Hjson.
  - destruct (prepare_ok env auth _ _ _ _ _ _ _ _ _ _ Hpre Hauth Hjson)
      as (rq & Hp & _).
    rewrite (_client_prepared _ _ _ _ _ _ _ _ _ _ _ Hp).
    destruct (http env (sent w1) rq) as [r|object|msg]; [| |reflexivity].
    + apply check_outcome.
    + unfold bind at 1, println at 1. apply check_outcome.
  - unfold _client_body, bind, lift. rewrite Hpre, Hauth, Hjson. reflexivity.
Qed.

(** ** The recursion between the three functions *)

Lemma string_get_is_map (c : value) (k : key) :
  is_string (get c k) = true -> is_map c = true.
Proof. destruct c; simpl; try discriminate. reflexivity. Qed.

(** The call [authenticate] makes: no credentials, POST, 200, the session
    path, the credentials map for a body, no URL parameters. *)
Lemma login_arguments env f c :
  is_map c = true ->
  client_body env f [VKw "post"; VInt 200; VStr "session"; c]
  = f VNil (VKw "post") (VInt 200) (VStr "session") c VNil.
Proof. destruct c; try discriminate. reflexivity. Qed.

(** Without credentials [-client] does not call [authenticate]. *)
Lemma _client_body_no_credentials env auth auth' m e u b k :
  _client_body env auth VNil m e u b k = _client_body env auth' VNil m e u b k.
Proof. reflexivity. Qed.

(** The nested call of [authenticate], whatever is left of the unfolding. *)
Lemma authenticate_unfold env fuel c w :
  authenticate env (S fuel) c w
  = authenticate_body env
      (fun _ => _client env 0 VNil (VKw "post") (VInt 200) (VStr "session")
                  c VNil) c w.
Proof.
  simpl. unfold authenticate_body, bind, lift.
  destruct (pre _) as [[]| |] eqn:Hpre; try reflexivity.
  assert (Hmap : is_map c = true).
  { apply (string_get_is_map c (KKw "email")).
    simpl in Hpre. now destruct (is_string (get c (KKw "email"))). }
  unfold try_catch, bind. rewrite login_arguments by exact Hmap.
  reflexivity.
Qed.

(** One unfolding is all [authenticate] uses. *)
Lemma authenticate_fuel env fuel c w :
  authenticate env (S fuel) c w = authenticate env 1 c w.
Proof. now rewrite !authenticate_unfold. Qed.

(** What [authenticate] makes of its login: the [:id] of what the login
    returns, [nil] when the login throws an exception; the requests it
    sends are those of the login. *)
Lemma authenticate_result env fuel c w :
  is_string (get c (KKw "email")) = true ->
  is_string (get c (KKw "password")) = true ->
  fst (authenticate env (S fuel) c w)
  = match fst (login env c w) with
    | Ok v => Ok (get v (KKw "id"))
    | Throw t => if is_Exception t then Ok VNil else Throw t
    | OutOfFuel => OutOfFuel
    end /\
  sent (snd (authenticate env (S fuel) c w)) = sent (snd (login env c w)).
Proof.
  intros He Hp. rewrite authenticate_unfold.
  unfold authenticate_body, bind, lift, pre. rewrite He, Hp.
  unfold try_catch, _client.
  change (_client_body env (authenticate env 0) VNil (VKw "post") (VInt 200)
            (VStr "session") c VNil) with (login env c).
  destruct (login env c w) as [[v|t|] w2]; simpl; auto.
  destruct (is_Exception t); simpl; auto.
Qed.

Lemma login_prepared env auth c w json :
  is_map c = true -> write_str env c = Some json ->
  prepare env auth VNil (VKw "post") (VInt 200) (VStr "session") c VNil w
  = Some (w, login_request env json).
Proof.
  intros Hc Hjson. destruct c; try discriminate.
  unfold prepare. simpl. rewrite Hjson. reflexivity.
Qed.

(** A login never throws past [(catch Exception ...)]. *)
Lemma login_throws_exceptions env c w :
  is_map c = true ->
  match fst (login env c w) with
  | Ok _ => True
  | Throw t => is_Exception t = true
  | OutOfFuel => False
  end.
Proof.
  intros Hc. apply (_client_throws_exceptions env _ _ _ _ _ _ _ _ VNil w).
  - destruct c; try discriminate. reflexivity.
  - reflexivity.
Qed.

(** With the preconditions met, a call whose authentication gave no token
    goes on as the call without credentials does. *)
Lemma _client_body_absent_token env auth c m e u b k w w1 :
  _client_pre c m e u b k = Ok tt ->
  when_credentials auth c w = (Ok VNil, w1) ->
  _client_body env auth c m e u b k w = _client_body env auth VNil m e u b k w1.
Proof.
  intros Hpre Hauth.
  assert (Hpre' : _client_pre VNil m e u b k = Ok tt).
  { destruct (_client_pre_ok _ _ _ _ _ _ Hpre) as (_ & Hm & He & Hu & Hb & Hk).
    unfold _client_pre, pre. now rewrite Hm, He, Hu, Hb, Hk. }
  unfold _client_body, bind, lift. rewrite Hpre, Hpre', Hauth. reflexivity.
Qed.

(** The precondition of [authenticate] stops it before anything is done. *)
Lemma authenticate_asserts env fuel c w :
  is_string (get c (KKw "email")) = false \/
  is_string (get c (KKw "password")) = false ->
  exists failed,
    authenticate env (S fuel) c w = (Throw (AssertionError failed), w).
Proof.
  intros H. rewrite authenticate_unfold.
  unfold authenticate_body, bind, lift, pre.
  destruct (is_string (get c (KKw "email"))).
  - destruct H as [H|H]; [discriminate|]. rewrite H. eauto.
  - eauto.
Qed.

(** ** Authentication *)

(** C7. For credentials whose email and password are strings and which
    serialize to JSON, [authenticate] calls the executor with the method
    POST, the expected status 200, the path session and the credentials
    map as the body, the credentials argument being absent: its token is
    the [:id] of what [-client] returns for these arguments, and [nil]
    when [-client] throws.  Exactly one request is sent, a POST to the
    session URL whose body is the serialized credentials and whose session
    header is empty.  When the server answers 200 with a JSON body, the
    token returned is the [:id] of the parsed body; when the response has
    any other status there is no token, whatever its body holds. *)
Theorem authenticate_posts_session env fuel c w json :
  is_string (get c (KKw "email")) = true ->
  is_string (get c (KKw "password")) = true ->
  write_str env c = Some json ->
  (forall f,
      client_body env f [VKw "post"; VInt 200; VStr "session"; c]
      = f VNil (VKw "post") (VInt 200) (VStr "session") c VNil) /\
  sent (snd (authenticate env (S fuel) c w))
  = (sent w ++ [login_request env json])%list /\
  (forall text parsed,
      http env (sent w) (login_request env json)
      = Responds {| status := Some 200%Z; resp_body := Some text |} ->
      read_str env text = Some parsed ->
      fst (authenticate env (S fuel) c w)
      = Ok (get (keywordize_keys parsed) (KKw "id"))) /\
  fst (authenticate env (S fuel) c w)
  = match fst (_client env fuel VNil (VKw "post") (VInt 200) (VStr "session")
                 c VNil w) with
    | Ok returned => Ok (get returned (KKw "id"))
    | _ => Ok VNil
    end /\
  (forall resp,
      delivered (http env (sent w) (login_request env json)) = Some resp ->
      (status_of resp = Some 200%Z ->
       fst (authenticate env (S fuel) c w)
       = Ok (get (parse_body env (body_of resp)) (KKw "id"))) /\
      (status_of resp <> Some 200%Z ->
       fst (authenticate env (S fuel) c w) = Ok VNil)).
Proof.
  intros He Hp Hjson.
  pose proof (string_get_is_map _ _ He) as Hc.
  destruct (authenticate_result env fuel c w He Hp) as [Hres Hsent].
  pose proof (login_prepared env (fun _ => out_of_fuel) c w json Hc Hjson)
    as Hprep.
  split; [|split; [|split; [|split]]].
  - intros f. now apply login_arguments.
  - rewrite Hsent. unfold login. now rewrite (_client_sends_one _ _ _ _ _ _ _ _ _ _ _ Hprep).
  - intros text parsed Hhttp Hread. rewrite Hres. unfold login.
    rewrite (_client_prepared _ _ _ _ _ _ _ _ _ _ _ Hprep), Hhttp.
    rewrite check_passes by (right; reflexivity).
    simpl. now rewrite Hread.
  - rewrite Hres.
    change (_client env fuel VNil (VKw "post") (VInt 200) (VStr "session")
              c VNil) with (login env c).
    pose proof (login_throws_exceptions env c w Hc) as Hexn.
    destruct (fst (login env c w)) as [v|t|]; [reflexivity| |destruct Hexn].
    now rewrite Hexn.
  - intros resp Hd.
    destruct (_client_delivered _ _ _ _ _ _ _ _ _ _ _ _ Hprep Hd) as [w2 Hrun].
    fold (login env c) in Hrun. rewrite Hres, Hrun. split; intros Hst.
    + rewrite check_passes; [reflexivity|].
      right. rewrite Hst. reflexivity.
    + rewrite check_fails; [|reflexivity|].
      * unfold mismatch_message. simpl. now destruct (status_of resp).
      * destruct (status_of resp) as [s|]; simpl; [|reflexivity].
        apply Z.eqb_neq. congruence.
Qed.

Lemma authenticate_posts_session_witness :
  fst (authenticate (demo_env friendly) 1 (creds "a@b.c" "pw") start)
  = Ok (VInt 7) /\
  get (parse_body (demo_env accepted) (Some session_json)) (KKw "id")
  = VInt 7 /\
  fst (authenticate (demo_env accepted) 1 (creds "a@b.c" "pw") start)
  = Ok VNil.
Proof.
  split; [|split; [reflexivity|]].
  - pose proof (authenticate_posts_session (demo_env friendly) 0
                  (creds "a@b.c" "pw") start _ eq_refl eq_refl eq_refl)
      as (_ & _ & H & _).
    exact (H session_json _ eq_refl eq_refl).
  - pose proof (authenticate_posts_session (demo_env accepted) 0
                  (creds "a@b.c" "pw") start _ eq_refl eq_refl eq_refl)
      as (_ & _ & _ & _ & H).
    destruct (H _ eq_refl) as [_ H202]. apply H202. discriminate.
Defined.

(** C3. When credentials are supplied and the login fails (it throws, as
    it does for a status other than 200 and for a transport error, or what
    it returns has no [:id], as for a malformed response), [authenticate]
    returns no token and throws nothing, and the call goes on exactly as
    the call without credentials does from there: its request is sent with
    an empty session header, and its result is that of the
    unauthenticated call. *)
Theorem authentication_failure_degrades env fuel c m e u b k w :
  _client_pre c m e u b k = Ok tt ->
  is_string (get c (KKw "email")) = true ->
  is_string (get c (KKw "password")) = true ->
  (forall v, fst (login env c w) = Ok v -> get v (KKw "id") = VNil) ->
  let w1 := snd (authenticate env (S fuel) c w) in
  fst (authenticate env (S fuel) c w) = Ok VNil /\
  _client env (S fuel) c m e u b k w = _client env (S fuel) VNil m e u b k w1 /\
  (forall json, write_str env b = Some json ->
     exists rq,
       sent (snd (_client env (S fuel) c m e u b k w)) = (sent w1 ++ [rq])%list /\
       headers (req_map rq) = [("X-METABASE-SESSION", VNil)] /\
       body (req_map rq) = json).
Proof.
  intros Hpre He Hp Hfail w1.
  pose proof (string_get_is_map _ _ He) as Hc.
  assert (Htoken : fst (authenticate env (S fuel) c w) = Ok VNil).
  { destruct (authenticate_result env fuel c w He Hp) as [-> _].
    pose proof (login_throws_exceptions env c w Hc) as Hexn.
    destruct (fst (login env c w)) as [v|t|].
    - now rewrite (Hfail v eq_refl).
    - now rewrite Hexn.
    - destruct Hexn. }
  assert (Hauth : when_credentials (authenticate env (S fuel)) c w
                  = (Ok VNil, w1)).
  { unfold when_credentials.
    replace (truthy c) with true by (now destruct c).
    etransitivity; [apply surjective_pairing|]. now rewrite Htoken. }
  split; [exact Htoken|split].
  - unfold _client. now apply _client_body_absent_token.
  - intros json Hjson.
    destruct (prepare_ok env _ _ _ _ _ _ _ _ _ _ _ Hpre Hauth Hjson)
      as (rq & Hprep & Hhead & Hbody).
    exists rq. unfold _client.
    now rewrite (_client_sends_one _ _ _ _ _ _ _ _ _ _ _ Hprep).
Qed.

Lemma authentication_failure_degrades_witness :
  fst (authenticate (demo_env refusing) 1 (creds "a@b.c" "pw") start) = Ok VNil /\
  fst (_client (demo_env refusing) 1 (creds "a@b.c" "pw") (VKw "get")
         (VInt 200) (VStr "card") VNil VNil start)
  = Ok (VStr "plain text").
Proof.
  assert (Hfail : forall v,
             fst (login (demo_env refusing) (creds "a@b.c" "pw") start) = Ok v ->
             get v (KKw "id") = VNil).
  { intros v H. vm_compute in H. discriminate H. }
  pose proof (authentication_failure_degrades (demo_env refusing) 0
                (creds "a@b.c" "pw") (VKw "get") (VInt 200) (VStr "card")
                VNil VNil start eq_refl eq_refl eq_refl Hfail)
    as (Htoken & Hsame & _).
  split; [exact Htoken|]. rewrite Hsame. reflexivity.
Defined.

(** The failures of a login: a transport error, a status other than 200,
    a response that has no [:id] once parsed. *)
Lemma login_failure_modes env c w json :
  is_map c = true -> write_str env c = Some json ->
  (exists msg, http env (sent w) (login_request env json) = ThrowsOther msg) \/
  (exists resp,
      delivered (http env (sent w) (login_request env json)) = Some resp /\
      (status_of resp <> Some 200%Z \/
       get (parse_body env (body_of resp)) (KKw "id") = VNil)) ->
  forall v, fst (login env c w) = Ok v -> get v (KKw "id") = VNil.
Proof.
  intros Hc Hjson Hmode v.
  pose proof (login_prepared env (fun _ => out_of_fuel) c w json Hc Hjson)
    as Hprep.
  destruct Hmode as [[msg Hmsg]|(resp & Hd & Hresp)].
  - unfold login. rewrite (_client_prepared _ _ _ _ _ _ _ _ _ _ _ Hprep), Hmsg.
    discriminate.
  - destruct (_client_delivered _ _ _ _ _ _ _ _ _ _ _ _ Hprep Hd) as [w2 Hrun].
    unfold login. rewrite Hrun. intros Hv.
    destruct (status_eq (status_of resp) (VInt 200)) eqn:Hs.
    + rewrite check_passes in Hv by (now right). injection Hv as <-.
      destruct Hresp as [Hst|Hid]; [|exact Hid]. exfalso. apply Hst.
      destruct (status_of resp) as [s|]; simpl in Hs; [|discriminate].
      apply Z.eqb_eq in Hs. now subst.
    + rewrite check_fails in Hv by (reflexivity || assumption).
      unfold mismatch_message in Hv. simpl in Hv.
      destruct (status_of resp); discriminate.
Qed.

(** ** The URL *)

Lemma map_interpose {A B : Type} (f : A -> B) (sep : A) (xs : list A) :
  map f (interpose sep xs) = interpose (f sep) (map f xs).
Proof.
  induction xs as [|x [|y ys] IH]; simpl in *; try reflexivity.
  now rewrite IH.
Qed.

Lemma str_name_if_keyword env (v : value) :
  str env (name_if_keyword v) = plain env v.
Proof. destruct v; reflexivity. Qed.

(** The pairs as [build-url] makes them are the pairs of the
    specification. *)
Lemma joined_pairs env (m : list (key * value)) :
  map (str env)
    (map (fun p => VStr (str_all env p))
       (map (interpose (VStr "="))
          (map (fun e => match e with
                         | (k, v) => [ name_if_keyword (key_value k);
                                       name_if_keyword v ]
                         end) m)))
  = map (query_pair env) m.
Proof.
  rewrite !map_map. apply map_ext. intros [k v].
  unfold query_pair, str_all. simpl.
  now rewrite !str_name_if_keyword, append_empty_r.
Qed.

(** C4. For a string path and a non-empty map of URL parameters,
    [build-url] gives the prefix, the path, a question mark and the
    [key=value] pairs joined by ampersands in the order the map yields
    them; a keyword key or value is rendered as its name and a string as
    it is, nothing being encoded or escaped. *)
Theorem build_url_query_string env (path : string) (m : list (key * value)) :
  m <> [] ->
  build_url env (VStr path) (VMap m)
  = Ok (url_prefix env ++ path ++ "?"
        ++ String.concat "&" (map (query_pair env) m)) /\
  (forall ks vs, query_pair env (KStr ks, VStr vs) = ks ++ "=" ++ vs) /\
  (forall kt vt,
      query_pair env (KKw kt, VKw vt) = kw_name kt ++ "=" ++ kw_name vt).
Proof.
  intros Hm. split; [|split; reflexivity].
  unfold build_url. cbn [pre is_string is_nil is_map orb].
  destruct m as [|e m]; [contradiction|].
  cbn [empty entries_of]. unfold str_all at 1. cbn [map str apply_str fold_right].
  do 3 f_equal. rewrite append_empty_r.
  unfold str_all at 1. cbn [map str apply_str fold_right].
  f_equal. rewrite append_empty_r.
  unfold str_all at 1. rewrite map_interpose. cbn [str].
  rewrite apply_str_interpose. f_equal. exact (joined_pairs env (e :: m)).
Qed.

Lemma build_url_query_string_witness :
  build_url (demo_env friendly) (VStr "card")
    (VMap [(KKw "org", VInt 1); (KStr "a b", VKw "x&y")])
  = Ok "http://localhost:3000/api/card?org=1&a b=x&y".
Proof.
  pose proof (build_url_query_string (demo_env friendly) "card"
                [(KKw "org", VInt 1); (KStr "a b", VKw "x&y")]) as H.
  destruct H as [H _]; [discriminate|]. exact H.
Defined.

(** C5. For a string path and no URL parameters, [nil] or an empty map,
    [build-url] gives the prefix followed by the path and nothing more. *)
Theorem build_url_no_params env (path : string) :
  build_url env (VStr path) VNil = Ok (url_prefix env ++ path) /\
  build_url env (VStr path) (VMap []) = Ok (url_prefix env ++ path).
Proof.
  unfold build_url, str_all. simpl. now rewrite append_empty_r.
Qed.

(** ** Contract violations *)

(** C6, as the code has it.  [authenticate] requires the email and the
    password of the credentials to be strings: when either is not a
    string it throws an AssertionError and leaves the world as it was, no
    request sent and nothing printed. *)
Theorem authenticate_requires_strings env fuel c w :
  is_string (get c (KKw "email")) = false \/
  is_string (get c (KKw "password")) = false ->
  exists failed,
    authenticate env (S fuel) c w = (Throw (AssertionError failed), w).
Proof. apply authenticate_asserts. Qed.

Lemma authenticate_requires_strings_witness :
  exists failed,
    authenticate (demo_env friendly) 1
      (VMap [(KKw "email", VInt 5); (KKw "password", VStr "pw")]) start
    = (Throw (AssertionError failed), start).
Proof.
  apply (authenticate_requires_strings (demo_env friendly) 0).
  left. reflexivity.
Defined.

(** C6, as it is stated, fails: the empty string is a string, so
    credentials whose email and password are empty pass the precondition;
    the login request is sent and its session comes back. *)
Lemma authenticate_accepts_empty_strings :
  is_non_empty_string (get (creds "" "") (KKw "email")) = false /\
  is_non_empty_string (get (creds "" "") (KKw "password")) = false /\
  authenticate (demo_env friendly) 1 (creds "" "") start
  = (Ok (VInt 7),
     {| sent := [login_request (demo_env friendly)
                   ("{" ++ dq ++ "email" ++ dq ++ ":" ++ dq ++ dq ++ ","
                    ++ dq ++ "password" ++ dq ++ ":" ++ dq ++ dq ++ "}")];
        out := ["POST http://localhost:3000/api/session 200"] |}).
Proof. repeat split. Qed.



(** ** Transport exceptions *)

(** C9, as the code has it.  An ExceptionInfo thrown by the request
    function is caught, and the [:object] of its data is the response that
    is checked and parsed, whether the data has one or not (without one,
    status and body are [nil]: the call returns [nil] when no status is
    expected); any other exception of the request function reaches the
    caller as it is. *)
Theorem transport_exception_handling env fuel c m e u b k w w1 rq :
  prepare env (authenticate env fuel) c m e u b k w = Some (w1, rq) ->
  (forall object,
      http env (sent w1) rq = ThrowsInfo object ->
      _client env fuel c m e u b k w
      = (println [method_name m; req_url rq] ;;
         check_and_parse env (method_name m) (req_url rq) e object)
          (sending w1 rq)) /\
  (http env (sent w1) rq = ThrowsInfo None -> e = VNil ->
   fst (_client env fuel c m e u b k w) = Ok VNil) /\
  (forall msg,
      http env (sent w1) rq = ThrowsOther msg ->
      _client env fuel c m e u b k w = (Throw (Exception msg), sending w1 rq)).
Proof.
  intros Hp. unfold _client.
  rewrite (_client_prepared _ _ _ _ _ _ _ _ _ _ _ Hp).
  split; [|split].
  - now intros object ->.
  - now intros -> ->.
  - now intros msg ->.
Qed.

Lemma transport_exception_handling_witness :
  _client (demo_env unreachable) 1 VNil (VKw "get") (VInt 200) (VStr "card")
    VNil VNil start
  = (Throw (Exception "Connection refused"),
     sending start
       {| req_fn := client_get;
          req_url := "http://localhost:3000/api/card";
          req_map := {| content_type := VKw "json";
                        accept := VKw "json";
                        headers := [("X-METABASE-SESSION", VNil)];
                        body := "null" |} |}).
Proof.
  pose proof (transport_exception_handling (demo_env unreachable) 1 VNil
                (VKw "get") (VInt 200) (VStr "card") VNil VNil start start _
                eq_refl) as (_ & _ & H).
  exact (H "Connection refused" eq_refl).
Defined.

(** C9, as it is stated, fails: an ExceptionInfo whose data has no
    [:object] gives no payload to recover, and yet it does not reach the
    caller; the call returns [nil]. *)
Lemma exception_without_object_is_swallowed :
  (forall rq, delivered (http (demo_env bare_info) [] rq) = Some None) /\
  fst (_client (demo_env bare_info) 1 VNil (VKw "get") VNil (VStr "card")
         VNil VNil start) = Ok VNil.
Proof. split; reflexivity. Qed.

(** ** The request body *)

(** C10. The request a call sends carries the serialization of the body
    argument as its body, whatever the method; as [write-str] gives null
    for [nil], a call without a body sends the text null. *)
Theorem request_body_is_json env fuel c m e u b k w w1 rq :
  prepare env (authenticate env fuel) c m e u b k w = Some (w1, rq) ->
  write_str env VNil = Some "null" ->
  sent (snd (_client env fuel c m e u b k w)) = (sent w1 ++ [rq])%list /\
  write_str env b = Some (body (req_map rq)) /\
  (b = VNil -> body (req_map rq) = "null").
Proof.
  intros Hp Hnull. split; [|split].
  - unfold _client. now apply _client_sends_one.
  - now apply prepare_request in Hp.
  - intros ->. apply prepare_request in Hp as (_ & _ & Hb & _).
    rewrite Hnull in Hb. now injection Hb.
Qed.

Lemma request_body_is_json_witness :
  map (fun rq => (req_fn rq, body (req_map rq)))
    (sent (snd (_client (demo_env friendly) 1 VNil (VKw "delete") VNil
                  (VStr "card/1") VNil VNil start)))
  = [(client_delete, "null")].
Proof.
  pose proof (request_body_is_json (demo_env friendly) 1 VNil (VKw "delete")
                VNil (VStr "card/1") VNil VNil start start _
                eq_refl eq_refl) as (Hsent & _ & Hnull).
  rewrite Hsent. simpl. reflexivity.
Defined.

(** ** Enough unfolding *)

(** [authenticate] returns or throws; one unfolding never runs out. *)
Lemma authenticate_total env fuel c w :
  fst (authenticate env (S fuel) c w) <> OutOfFuel.
Proof.
  destruct (is_string (get c (KKw "email"))) eqn:He;
    [destruct (is_string (get c (KKw "password"))) eqn:Hp|].
  - destruct (authenticate_result env fuel c w He Hp) as [-> _].
    pose proof (login_throws_exceptions env c w (string_get_is_map _ _ He))
      as H.
    destruct (fst (login env c w)) as [v|t|].
    + discriminate.
    + now destruct (is_Exception t).
    + destruct H.
  - destruct (authenticate_asserts env fuel c w (or_intror Hp))
      as [failed ->]. discriminate.
  - destruct (authenticate_asserts env fuel c w (or_introl He))
      as [failed ->]. discriminate.
Qed.

(** So does [-client], and more unfolding changes nothing. *)
Lemma _client_total env fuel c m e u b k w :
  fst (_client env (S fuel) c m e u b k w) <> OutOfFuel /\
  _client env (S fuel) c m e u b k w = _client env 1 c m e u b k w.
Proof.
  split.
  - destruct (pre_not_ok
                [ (is_nil c || is_map c, "(or (nil? credentials) (map? credentials))");
                  (is_method m, "(contains? #{:get :post :put :delete} method)");
                  (is_nil e || is_integer e,
                   "(or (nil? expected-status) (integer? expected-status))");
                  (is_string u, "(string? url)");
                  (is_nil b || is_map b, "(or (nil? http-body) (map? http-body))");
                  (is_nil k || is_map k,
                   "(or (nil? url-param-kwargs) (map? url-param-kwargs))") ])
      as [Hpre|[failed Hpre]]; fold (_client_pre c m e u b k) in Hpre.
    + destruct (when_credentials (authenticate env (S fuel)) c w)
        as [[token| |] w1] eqn:Hauth.
      * pose proof (_client_throws_exceptions env _ c m e u b k w token w1
                      Hpre Hauth) as H.
        unfold _client. now destruct (fst (_client_body _ _ _ _ _ _ _ _ _)).
      * unfold _client, _client_body, bind, lift. rewrite Hpre, Hauth.
        discriminate.
      * exfalso. unfold when_credentials in Hauth.
        destruct (truthy c); [|discriminate].
        apply (authenticate_total env fuel c w). now rewrite Hauth.
    + unfold _client, _client_body, bind, lift. rewrite Hpre. discriminate.
  - unfold _client, _client_body, bind, lift, when_credentials.
    destruct (_client_pre c m e u b k) as [[]| |]; [|reflexivity..].
    destruct (truthy c); [|reflexivity].
    now rewrite authenticate_fuel.
Qed.

(** * Further properties of the client *)

(** ** The arguments of [client] *)

(** [client] finds its optional arguments by their type: a leading map is
    the credentials, an integer after the method is the expected status, a
    map after the URL is the body, and what follows is made into the map
    of URL parameters.  So a call whose method is not a map, whose URL is
    not an integer when no status is given, and whose keyword arguments do
    not start with a map when no body is given, reaches [-client] with
    the arguments meant, [nil] standing for those left out.  When the
    keyword arguments cannot be made into a map, [-client] is not called
    and the world stays as it was. *)
Theorem client_arguments env fuel oc m oe u ob rest w :
  match oc with Some c => is_map c = true | None => is_map m = false end ->
  match oe with
  | Some e => is_integer e = true
  | None => is_integer u = false
  end ->
  match ob with
  | Some b => is_map b = true
  | None => is_map (first rest) = false
  end ->
  (rest = [] ->
   client env fuel (arguments oc m oe u ob rest) w
   = _client env fuel (or_nil oc) m (or_nil oe) u (or_nil ob) VNil w) /\
  (forall kw, rest <> [] -> hash_map env rest = Some kw ->
   client env fuel (arguments oc m oe u ob rest) w
   = _client env fuel (or_nil oc) m (or_nil oe) u (or_nil ob) kw w) /\
  (rest <> [] -> hash_map env rest = None ->
   exists t, client env fuel (arguments oc m oe u ob rest) w = (Throw t, w)).
Proof.
  intros Hc He Hb.
  assert (Hrun : client env fuel (arguments oc m oe u ob rest)
                 = (kw <- lift (match rest with
                                | [] => Ok VNil
                                | _ => match hash_map env rest with
                                       | Some x => Ok x
                                       | None => Throw (Exception "hash-map")
                                       end
                                end) ;;
                    _client env fuel (or_nil oc) m (or_nil oe) u (or_nil ob) kw)).
  { unfold client, client_body, arguments, optional.
    destruct oc as [c|]; cbn [opt_arg app first next tl or_nil];
      rewrite Hc;
      (destruct oe as [e|]; cbn [opt_arg app first next tl or_nil];
       rewrite He;
       (destruct ob as [b|]; cbn [opt_arg app first next tl or_nil];
        rewrite Hb; reflexivity)). }
  rewrite Hrun. unfold bind, lift. split; [|split].
  - now intros ->.
  - intros kw Hrest Hkw. destruct rest; [contradiction|]. now rewrite Hkw.
  - intros Hrest Hkw. destruct rest; [contradiction|]. rewrite Hkw. eauto.
Qed.

Lemma client_arguments_witness :
  client (demo_env friendly) 1
    [creds "a@b.c" "pw"; VKw "get"; VInt 200; VStr "card"] start
  = _client (demo_env friendly) 1 (creds "a@b.c" "pw") (VKw "get") (VInt 200)
      (VStr "card") VNil VNil start.
Proof.
  pose proof (client_arguments (demo_env friendly) 1
                (Some (creds "a@b.c" "pw")) (VKw "get") (Some (VInt 200))
                (VStr "card") None [] start eq_refl eq_refl eq_refl)
    as [H _].
  exact (H eq_refl).
Defined.

(** ** Preconditions *)

(** Whichever precondition of [-client] is violated, the call throws an
    AssertionError and leaves the world as it was: nothing is sent or
    printed, and [authenticate] is not called. *)
Theorem precondition_violation_stops env fuel c m e u b k w :
  is_nil c || is_map c = false \/ is_method m = false \/
  is_nil e || is_integer e = false \/ is_string u = false \/
  is_nil b || is_map b = false \/ is_nil k || is_map k = false ->
  exists failed,
    _client env fuel c m e u b k w = (Throw (AssertionError failed), w).
Proof.
  intros H.
  destruct (pre_not_ok
              [ (is_nil c || is_map c, "(or (nil? credentials) (map? credentials))");
                (is_method m, "(contains? #{:get :post :put :delete} method)");
                (is_nil e || is_integer e,
                 "(or (nil? expected-status) (integer? expected-status))");
                (is_string u, "(string? url)");
                (is_nil b || is_map b, "(or (nil? http-body) (map? http-body))");
                (is_nil k || is_map k,
                 "(or (nil? url-param-kwargs) (map? url-param-kwargs))") ])
    as [Hpre|[failed Hpre]]; fold (_client_pre c m e u b k) in Hpre.
  - exfalso.
    destruct (_client_pre_ok _ _ _ _ _ _ Hpre) as (Hc & Hm & He & Hu & Hb & Hk).
    rewrite Hc, Hm, He, Hu, Hb, Hk in H.
    repeat (destruct H as [H|H]; [discriminate|]). discriminate.
  - exists failed. unfold _client, _client_body, bind, lift. now rewrite Hpre.
Qed.

Lemma precondition_violation_stops_witness :
  exists failed,
    _client (demo_env friendly) 1 (creds "a@b.c" "pw") (VKw "get")
      (VStr "200") (VStr "card") VNil VNil start
    = (Throw (AssertionError failed), start).
Proof.
  apply (precondition_violation_stops (demo_env friendly) 1).
  right. right. left. reflexivity.
Defined.

(** Credentials that are not what [authenticate] requires (an empty map,
    an email that is not a string) stop the whole call: the precondition
    of [authenticate] fails after those of [-client] have passed, the
    AssertionError reaches the caller, and nothing has been sent. *)
Theorem malformed_credentials_stop env fuel c m e u b k w :
  _client_pre c m e u b k = Ok tt ->
  is_map c = true ->
  is_string (get c (KKw "email")) = false \/
  is_string (get c (KKw "password")) = false ->
  exists failed,
    _client env (S fuel) c m e u b k w = (Throw (AssertionError failed), w).
Proof.
  intros Hpre Hc Hbad.
  destruct (authenticate_asserts env fuel c w Hbad) as [failed Hauth].
  exists failed. unfold _client, _client_body, bind, lift, when_credentials.
  rewrite Hpre. replace (truthy c) with true by (now destruct c).
  now rewrite Hauth.
Qed.

Lemma malformed_credentials_stop_witness :
  exists failed,
    _client (demo_env friendly) 1 (VMap []) (VKw "get") VNil (VStr "card")
      VNil VNil start
    = (Throw (AssertionError failed), start).
Proof.
  apply (malformed_credentials_stop (demo_env friendly) 0 (VMap []));
    [reflexivity|reflexivity|left; reflexivity].
Defined.

(** ** More on the URL *)

(** The URL of a map with a first entry. *)
Lemma build_url_params env (path : string) (e : key * value)
  (m : list (key * value)) :
  build_url env (VStr path) (VMap (e :: m))
  = Ok (url_prefix env ++ path ++ "?"
        ++ String.concat "&" (map (query_pair env) (e :: m))).
Proof.
  unfold build_url. cbn [pre is_string is_nil is_map orb empty entries_of].
  unfold str_all at 1. cbn [map str apply_str fold_right].
  do 3 f_equal. rewrite append_empty_r.
  unfold str_all at 1. cbn [map str apply_str fold_right].
  f_equal. rewrite append_empty_r.
  unfold str_all at 1. rewrite map_interpose. cbn [str].
  rewrite apply_str_interpose. f_equal. exact (joined_pairs env (e :: m)).
Qed.

(** The two ways [build-url] ends. *)
Lemma build_url_cases env u k :
  match build_url env u k with
  | Ok full =>
      is_nil k || is_map k = true /\
      exists path query,
        u = VStr path /\ full = url_prefix env ++ path ++ query /\
        (empty k = true -> query = "")
  | Throw t =>
      (exists failed, t = AssertionError failed) /\
      (is_string u = false \/ is_nil k || is_map k = false)
  | OutOfFuel => False
  end.
Proof.
  unfold build_url, pre.
  destruct u; cbn [is_string]; try (split; eauto).
  destruct (is_nil k || is_map k) eqn:Hk; [|split; eauto].
  split; [reflexivity|]. exists s. eexists. split; [reflexivity|].
  unfold str_all. cbn [map str apply_str fold_right]. split; [reflexivity|].
  intros ->. reflexivity.
Qed.

(** [build-url] returns a URL exactly when the path is a string and the
    parameters are [nil] or a map, and the URL then starts with the prefix
    and the path; otherwise it throws an AssertionError. *)
Theorem build_url_domain env u k :
  match build_url env u k with
  | Ok full =>
      is_nil k || is_map k = true /\
      exists path query,
        u = VStr path /\ full = url_prefix env ++ path ++ query /\
        (empty k = true -> query = "")
  | Throw t =>
      (exists failed, t = AssertionError failed) /\
      (is_string u = false \/ is_nil k || is_map k = false)
  | OutOfFuel => False
  end.
Proof. apply build_url_cases. Qed.

(** Nothing is escaped, so the URL does not tell a value that holds an
    ampersand and an equals sign from a further parameter: the map with
    the one entry [k1 = v1&k2=v2] and the map with the two entries
    [k1 = v1] and [k2 = v2] give the same URL. *)
Theorem build_url_ambiguous env (path k1 v1 k2 v2 : string) :
  build_url env (VStr path)
    (VMap [(KStr k1, VStr (v1 ++ "&" ++ k2 ++ "=" ++ v2))])
  = build_url env (VStr path) (VMap [(KStr k1, VStr v1); (KStr k2, VStr v2)]).
Proof.
  rewrite !build_url_params. unfold query_pair. cbn.
  now rewrite !append_assoc.
Qed.

(** ** More on [authenticate] *)

Lemma login_unserializable env c w :
  is_map c = true -> write_str env c = None ->
  exists t, login env c w = (Throw t, w).
Proof.
  intros Hc Hjson. destruct c; try discriminate.
  unfold login, _client_body, bind, lift. cbn. rewrite Hjson. eauto.
Qed.

(** The requests of a login: none when the credentials do not serialize,
    the login request otherwise. *)
Lemma login_sent env c w :
  is_map c = true ->
  sent (snd (login env c w)) = sent w \/
  exists json, write_str env c = Some json /\
               sent (snd (login env c w))
               = (sent w ++ [login_request env json])%list.
Proof.
  intros Hc. destruct (write_str env c) as [json|] eqn:Hjson.
  - right. exists json. split; [reflexivity|]. unfold login.
    now rewrite (_client_sends_one _ _ _ _ _ _ _ _ _ _ _
                   (login_prepared env _ c w json Hc Hjson)).
  - left. now destruct (login_unserializable env c w Hc Hjson) as [t ->].
Qed.



(** What [authenticate] prints besides the lines of its login: the line
    that names the email and the password, in clear, when the login
    throws; nothing when the login returns, also when what it returns has
    no [:id] and the token is [nil]. *)
Theorem authenticate_diagnostic env fuel c w (email password : string) :
  get c (KKw "email") = VStr email ->
  get c (KKw "password") = VStr password ->
  out (snd (authenticate env (S fuel) c w))
  = (out (snd (login env c w))
     ++ match fst (login env c w) with
        | Throw _ =>
            [ ("Failed to authenticate with email: " ++ email
               ++ " and password: " ++ password
               ++ " . Does user exist?")%string ]
        | _ => []
        end)%list.
Proof.
  intros He Hp.
  assert (Hc : is_map c = true).
  { apply (string_get_is_map c (KKw "email")). now rewrite He. }
  pose proof (login_throws_exceptions env c w Hc) as Hexn.
  rewrite authenticate_unfold.
  unfold authenticate_body, bind, lift, pre. rewrite He, Hp.
  cbn [is_string]. unfold try_catch, _client.
  change (_client_body env (authenticate env 0) VNil (VKw "post") (VInt 200)
            (VStr "session") c VNil) with (login env c).
  destruct (login env c w) as [[v|t|] w2]; simpl in *.
  - now rewrite app_nil_r.
  - rewrite Hexn. reflexivity.
  - destruct Hexn.
Qed.

Lemma authenticate_diagnostic_witness :
  out (snd (authenticate (demo_env unreachable) 1 (creds "a@b.c" "pw") start))
  = ["Failed to authenticate with email: a@b.c and password: pw . Does user exist?"].
Proof.
  rewrite (authenticate_diagnostic (demo_env unreachable) 0
             (creds "a@b.c" "pw") start "a@b.c" "pw" eq_refl eq_refl).
  reflexivity.
Defined.

(** ** The requests of a call *)

Lemma login_request_ok env json : client_request env (login_request env json).
Proof. repeat split; simpl; eauto. Qed.

Lemma prepared_request_ok env auth c m e u b k w w1 rq :
  prepare env auth c m e u b k w = Some (w1, rq) -> client_request env rq.
Proof.
  unfold prepare. intros H.
  destruct (_client_pre c m e u b k) as [[]| |]; try discriminate.
  destruct (when_credentials auth c w) as [[tok| |] w1']; try discriminate.
  destruct (write_str env b); try discriminate.
  destruct (case_method m); try discriminate.
  pose proof (build_url_cases env u k) as Hurl.
  destruct (build_url env u k) as [full| |]; try discriminate.
  injection H as <- <-. destruct Hurl as (_ & path & query & _ & -> & _).
  repeat split; simpl; eauto.
Qed.

(** What [authenticate] adds to the requests sent: at most the login. *)
Lemma authenticate_sent env fuel c w :
  exists l, sent (snd (authenticate env (S fuel) c w)) = (sent w ++ l)%list /\
            (List.length l <= 1)%nat /\ Forall (client_request env) l.
Proof.
  destruct (is_string (get c (KKw "email"))) eqn:He;
    [destruct (is_string (get c (KKw "password"))) eqn:Hp|].
  - destruct (authenticate_result env fuel c w He Hp) as [_ ->].
    destruct (login_sent env c w (string_get_is_map _ _ He))
      as [-> |(json & _ & ->)].
    + exists []. rewrite app_nil_r. repeat split; auto.
    + exists [login_request env json]. repeat split; auto.
      constructor; [apply login_request_ok|constructor].
  - destruct (authenticate_asserts env fuel c w (or_intror Hp)) as [f ->].
    exists []. rewrite app_nil_r. repeat split; auto.
  - destruct (authenticate_asserts env fuel c w (or_introl He)) as [f ->].
    exists []. rewrite app_nil_r. repeat split; auto.
Qed.

(** What [-client] adds once it has its token: at most its own request. *)
Lemma _client_sent_after_token env auth c m e u b k w token w1 :
  _client_pre c m e u b k = Ok tt ->
  when_credentials auth c w = (Ok token, w1) ->
  exists l, sent (snd (_client_body env auth c m e u b k w))
            = (sent w1 ++ l)%list /\
            (List.length l <= 1)%nat /\ Forall (client_request env) l.
Proof.
  intros Hpre Hauth. destruct (write_str env b) as [json|] eqn:Hjson.
  - destruct (prepare_ok env auth _ _ _ _ _ _ _ _ _ _ Hpre Hauth Hjson)
      as (rq & Hp & _).
    exists [rq]. rewrite (_client_sends_one _ _ _ _ _ _ _ _ _ _ _ Hp).
    repeat split; auto.
    constructor; [exact (prepared_request_ok _ _ _ _ _ _ _ _ _ _ _ Hp)|constructor].
  - exists []. unfold _client_body, bind, lift. rewrite Hpre, Hauth, Hjson.
    simpl. rewrite app_nil_r. repeat split; auto.
Qed.

(** A call of [-client] only adds to the requests sent: at most two, the
    login and its own request, and at most one when it has no credentials.
    Each of them has the JSON content type and accept entries, the session
    header for its only header, and a URL under the prefix. *)
Theorem requests_of_a_call env fuel c m e u b k w :
  exists l,
    sent (snd (_client env (S fuel) c m e u b k w)) = (sent w ++ l)%list /\
    (List.length l <= 2)%nat /\
    (c = VNil -> (List.length l <= 1)%nat) /\
    Forall (client_request env) l.
Proof.
  destruct (pre_not_ok
              [ (is_nil c || is_map c, "(or (nil? credentials) (map? credentials))");
                (is_method m, "(contains? #{:get :post :put :delete} method)");
                (is_nil e || is_integer e,
                 "(or (nil? expected-status) (integer? expected-status))");
                (is_string u, "(string? url)");
                (is_nil b || is_map b, "(or (nil? http-body) (map? http-body))");
                (is_nil k || is_map k,
                 "(or (nil? url-param-kwargs) (map? url-param-kwargs))") ])
    as [Hpre|[failed Hpre]]; fold (_client_pre c m e u b k) in Hpre.
  - destruct (when_credentials (authenticate env (S fuel)) c w)
      as [r w1] eqn:Hauth.
    assert (Hw1 : exists l1, sent w1 = (sent w ++ l1)%list /\
                             (List.length l1 <= 1)%nat /\
                             (c = VNil -> l1 = []) /\
                             Forall (client_request env) l1).
    { unfold when_credentials in Hauth. destruct (truthy c) eqn:Ht.
      - destruct (authenticate_sent env fuel c w) as (l1 & Hl1 & Hlen & Hok).
        rewrite Hauth in Hl1. exists l1. repeat split; auto.
        intros ->. discriminate.
      - injection Hauth as <- <-. exists []. rewrite app_nil_r.
        repeat split; auto. }
    destruct Hw1 as (l1 & Hl1 & Hlen1 & Hnil & Hok1).
    destruct r as [token| |].
    + destruct (_client_sent_after_token env _ c m e u b k w token w1
                  Hpre Hauth) as (l2 & Hl2 & Hlen2 & Hok2).
      exists (l1 ++ l2)%list. unfold _client.
      rewrite Hl2, Hl1, <- app_assoc, length_app. repeat split.
      * lia.
      * intros Hc. rewrite (Hnil Hc). simpl. lia.
      * apply Forall_app. now split.
    + exists l1. unfold _client, _client_body, bind, lift.
      rewrite Hpre, Hauth. simpl. repeat split; auto.
    + exists l1. unfold _client, _client_body, bind, lift.
      rewrite Hpre, Hauth. simpl. repeat split; auto.
  - exists []. unfold _client, _client_body, bind, lift. rewrite Hpre.
    simpl. rewrite app_nil_r. repeat split; auto.
Qed.

(** What a login returns when the server answers 200 with a JSON body. *)
Lemma login_success env c w json text parsed :
  is_map c = true -> write_str env c = Some json ->
  http env (sent w) (login_request env json)
  = Responds {| status := Some 200%Z; resp_body := Some text |} ->
  read_str env text = Some parsed ->
  fst (login env c w) = Ok (keywordize_keys parsed).
Proof.
  intros Hc Hjson Hhttp Hread. unfold login.
  rewrite (_client_prepared _ _ _ _ _ _ _ _ _ _ _
             (login_prepared env _ c w json Hc Hjson)), Hhttp.
  rewrite check_passes by (right; reflexivity).
  simpl. now rewrite Hread.
Qed.

(** When the login succeeds, the call sends two requests, the login and
    then its own, and its own request carries the [:id] of the session the
    login returned as its session header. *)
Theorem session_token_is_sent env fuel c m e u b k w cj bj text parsed f full :
  _client_pre c m e u b k = Ok tt ->
  is_string (get c (KKw "email")) = true ->
  is_string (get c (KKw "password")) = true ->
  write_str env c = Some cj ->
  http env (sent w) (login_request env cj)
  = Responds {| status := Some 200%Z; resp_body := Some text |} ->
  read_str env text = Some parsed ->
  write_str env b = Some bj ->
  case_method m = Ok f ->
  build_url env u k = Ok full ->
  sent (snd (_client env (S fuel) c m e u b k w))
  = (sent w
     ++ [ login_request env cj;
          {| req_fn := f;
             req_url := full;
             req_map :=
               {| content_type := VKw "json";
                  accept := VKw "json";
                  headers := [("X-METABASE-SESSION",
                               get (keywordize_keys parsed) (KKw "id"))];
                  body := bj |} |} ])%list.
Proof.
  intros Hpre He Hp Hcj Hhttp Hread Hbj Hf Hfull.
  pose proof (string_get_is_map _ _ He) as Hc.
  destruct (authenticate_result env fuel c w He Hp) as [Hres Hsent].
  rewrite (login_success env c w cj text parsed Hc Hcj Hhttp Hread) in Hres.
  unfold login in Hsent.
  rewrite (_client_sends_one _ _ _ _ _ _ _ _ _ _ _
             (login_prepared env _ c w cj Hc Hcj)) in Hsent.
  assert (Hauth : when_credentials (authenticate env (S fuel)) c w
                  = (Ok (get (keywordize_keys parsed) (KKw "id")),
                     snd (authenticate env (S fuel) c w))).
  { unfold when_credentials. replace (truthy c) with true by (now destruct c).
    etransitivity; [apply surjective_pairing|]. now rewrite Hres. }
  unfold _client.
  rewrite (_client_sends_one env _ c m e u b k w
             (snd (authenticate env (S fuel) c w))
             {| req_fn := f;
                req_url := full;
                req_map :=
                  {| content_type := VKw "json";
                     accept := VKw "json";
                     headers := [("X-METABASE-SESSION",
                                  get (keywordize_keys parsed) (KKw "id"))];
                     body := bj |} |}).
  - rewrite Hsent, <- app_assoc. reflexivity.
  - unfold prepare. now rewrite Hpre, Hauth, Hbj, Hf, Hfull.
Qed.

Lemma session_token_is_sent_witness :
  map (fun rq => (req_url rq, headers (req_map rq)))
    (sent (snd (_client (demo_env friendly) 1 (creds "a@b.c" "pw") (VKw "get")
                  (VInt 200) (VStr "card") VNil VNil start)))
  = [ ("http://localhost:3000/api/session", [("X-METABASE-SESSION", VNil)]);
      ("http://localhost:3000/api/card", [("X-METABASE-SESSION", VInt 7)]) ].
Proof.
  rewrite (session_token_is_sent (demo_env friendly) 0 (creds "a@b.c" "pw")
             (VKw "get") (VInt 200) (VStr "card") VNil VNil start _ _
             session_json _ client_get "http://localhost:3000/api/card"
             eq_refl eq_refl eq_refl eq_refl eq_refl eq_refl eq_refl eq_refl
             eq_refl).
  reflexivity.
Defined.

(** ** The lines a call prints *)

(** Once its request is sent, a call prints the method, the URL and the
    status of the response ([nil] when there is none), after a line with
    the method and the URL alone when an ExceptionInfo was caught, and
    followed by the body when the status is not the expected one; it
    prints nothing when another exception goes through. *)
Theorem lines_of_a_call env fuel c m e u b k w w1 rq :
  prepare env (authenticate env fuel) c m e u b k w = Some (w1, rq) ->
  let lines (resp : option response) :=
    (method_name m ++ " " ++ req_url rq ++ " "
     ++ match status_of resp with Some s => decimal s | None => "nil" end)
    :: (if truthy e && negb (status_eq (status_of resp) e)
        then [match body_of resp with Some s => s | None => "nil" end]
        else []) in
  out (snd (_client env fuel c m e u b k w))
  = (out w1
     ++ match http env (sent w1) rq with
        | Responds r => lines (Some r)
        | ThrowsInfo object =>
            (method_name m ++ " " ++ req_url rq)%string :: lines object
        | ThrowsOther _ => []
        end)%list.
Proof.
  intros Hp lines. unfold _client.
  rewrite (_client_prepared _ _ _ _ _ _ _ _ _ _ _ Hp).
  assert (Hcheck : forall resp w2,
             out (snd (check_and_parse env (method_name m) (req_url rq) e
                         resp w2))
             = (out w2 ++ lines resp)%list).
  { intros resp w2. subst lines.
    unfold check_and_parse, bind, println, ret, throw, lift. simpl.
    destruct (truthy e); simpl.
    - destruct (status_eq (status_of resp) e); simpl.
      + destruct (status_of resp); reflexivity.
      + destruct (mismatch_message (method_name m) (req_url rq) e
                    (status_of resp)); simpl;
          rewrite <- app_assoc; destruct (status_of resp), (body_of resp);
          reflexivity.
    - destruct (status_of resp); reflexivity. }
  destruct (http env (sent w1) rq) as [r|object|msg].
  - now rewrite Hcheck.
  - unfold bind at 1, println at 1. rewrite Hcheck. simpl.
    now rewrite <- app_assoc.
  - simpl. now rewrite app_nil_r.
Qed.

Lemma lines_of_a_call_witness :
  out (snd (_client (demo_env friendly) 1 VNil (VKw "get") (VInt 200)
              (VStr "card") VNil VNil start))
  = [ "GET http://localhost:3000/api/card";
      "GET http://localhost:3000/api/card 401";
      "Unauthenticated" ].
Proof.
  rewrite (lines_of_a_call (demo_env friendly) 1 VNil (VKw "get") (VInt 200)
             (VStr "card") VNil VNil start start _ eq_refl).
  reflexivity.
Defined.

(** ** A call of [client] from end to end *)

(** [client] without credentials and keyword arguments is [-client] with
    the optional arguments that are there. *)
Lemma client_plain env fuel m oe (path : string) ob :
  is_map m = false ->
  match oe with Some e => is_integer e = true | None => True end ->
  match ob with Some b => is_map b = true | None => True end ->
  client env fuel (arguments None m oe (VStr path) ob [])
  = _client env fuel VNil m (or_nil oe) (VStr path) (or_nil ob) VNil.
Proof.
  intros Hm He Hb. unfold client, client_body, arguments, optional.
  cbn [opt_arg app first next tl or_nil]. rewrite Hm.
  destruct oe as [e|]; cbn [opt_arg app first next tl or_nil is_integer].
  - rewrite He. destruct ob as [b|]; cbn [opt_arg app first next tl or_nil].
    + now rewrite Hb.
    + reflexivity.
  - destruct ob as [b|]; cbn [opt_arg app first next tl or_nil].
    + now rewrite Hb.
    + reflexivity.
Qed.

(** A call [(client method status? path body?)] with one of the four
    methods, a string path, and a body (if any) that is a map and
    serializes: exactly one request is sent, by the request function of
    the method, to the prefix followed by the path, with an empty session
    header and the serialized body (that of [nil] when there is none). *)
Theorem client_sends_one_request env fuel m oe (path : string) ob w f json :
  case_method m = Ok f ->
  match oe with Some e => is_integer e = true | None => True end ->
  match ob with Some b => is_map b = true | None => True end ->
  write_str env (or_nil ob) = Some json ->
  sent (snd (client env fuel (arguments None m oe (VStr path) ob []) w))
  = (sent w
     ++ [ {| req_fn := f;
             req_url := url_prefix env ++ path;
             req_map := {| content_type := VKw "json";
                           accept := VKw "json";
                           headers := [("X-METABASE-SESSION", VNil)];
                           body := json |} |} ])%list.
Proof.
  intros Hf He Hb Hjson.
  destruct (case_method_keyword _ _ Hf) as [t ->].
  rewrite client_plain by (reflexivity || assumption).
  unfold _client. apply _client_sends_one.
  assert (Hm : is_method (VKw t) = true).
  { revert Hf. simpl.
    destruct (String.eqb t "get") eqn:E1; [reflexivity|].
    destruct (String.eqb t "post") eqn:E2; [reflexivity|].
    destruct (String.eqb t "put") eqn:E3; [reflexivity|].
    destruct (String.eqb t "delete") eqn:E4; [reflexivity|].
    apply String.eqb_neq in E1, E2, E3, E4. intros Hf. exfalso.
    repeat match type of Hf with
           | context [match ?s with EmptyString => _ | String _ _ => _ end] =>
               destruct s; try discriminate
           | context [match ?a with Ascii _ _ _ _ _ _ _ _ => _ end] =>
               destruct a
           | context [if ?x then _ else _] => destruct x; try discriminate
           end; congruence. }
  unfold prepare, _client_pre, pre. rewrite Hm. cbn [is_nil is_map orb is_string].
  assert (He' : is_nil (or_nil oe) || is_integer (or_nil oe) = true).
  { destruct oe as [e|]; [simpl; rewrite He; apply orb_true_r|reflexivity]. }
  assert (Hb' : is_nil (or_nil ob) || is_map (or_nil ob) = true).
  { destruct ob as [b|]; [simpl; rewrite Hb; apply orb_true_r|reflexivity]. }
  rewrite He', Hb'. cbn [when_credentials truthy ret]. rewrite Hjson, Hf.
  unfold build_url, str_all. simpl. now rewrite append_empty_r.
Qed.

Lemma client_sends_one_request_witness :
  map (fun rq => (req_fn rq, req_url rq, body (req_map rq)))
    (sent (snd (client (demo_env friendly) 1
                  [VKw "post"; VStr "card";
                   VMap [(KKw "name", VStr "My Card")]] start)))
  = [ (client_post, "http://localhost:3000/api/card",
       "{" ++ dq ++ "name" ++ dq ++ ":" ++ dq ++ "My Card" ++ dq ++ "}") ].
Proof.
  exact (f_equal (map (fun rq => (req_fn rq, req_url rq, body (req_map rq))))
           (client_sends_one_request (demo_env friendly) 1 (VKw "post") None
              "card" (Some (VMap [(KKw "name", VStr "My Card")])) start
              client_post _ eq_refl I eq_refl eq_refl)).
Defined.
